(** * Payment-screenshot panel: extraction pipeline and receipt synthesizer

    A shallow embedding of [complete_panel_with_generation.py] and of the
    functions [single_file_panel.py] shares with it or writes differently
    ([preprocess_image_for_ocr], [extract_with_tesseract]).

    Conventions of the embedding.
    - A Python [str] is a Rocq [string]; a character is a code point below
      256 (U+0000 to U+00FF).  On that range [\d], [\s], [\w], [str.lower],
      [str.strip] and case-insensitive matching are transcribed from
      CPython; code points above U+00FF are outside the model.
    - A Python [dict] with string keys is a [gmap string pyval]; a Python
      [set] of strings is a [gset string].  Iterating a Python set gives an
      unspecified order, so statements about [list(set)] only speak of
      membership and length.
    - Code that can raise returns a [result]; [try]/[except] is [try_except].
    - The outside world (Pillow decoding and filters, Tesseract, the Gemini
      service, [json.loads], the clock, the installed fonts) is a record of
      oracles passed explicitly. *)

From Stdlib Require Import ZArith QArith Ascii String DecimalString.
From Stdlib.Strings Require Import Byte.
From stdpp Require Import gmap strings list fin_maps.

Open Scope string_scope.

(** ** Python values

    The values [json.loads] can produce, which are also the values of a
    record; a number with a fraction is a rational (the non-finite floats are
    left out). *)

Unset Elimination Schemes.
#[warnings="-register-all"]
Inductive pyval : Type :=
| PNone
| PBool (b : bool)
| PInt (z : Z)
| PFloat (q : Q)
| PStr (s : string)
| PList (l : list pyval)
| PDict (d : gmap string pyval).
Set Elimination Schemes.

(** [bool(v)]: the truth value Python gives to [v]. *)
Definition truthy (v : pyval) : bool :=
  match v with
  | PNone => false
  | PBool b => b
  | PInt z => negb (z =? 0)%Z
  | PFloat q => negb (Qeq_bool q 0)
  | PStr s => negb (Nat.eqb (String.length s) 0)
  | PList l => negb (Nat.eqb (length l) 0)
  | PDict d => negb (Nat.eqb (size d) 0)
  end.

(** [d.get(k)]: the value, or [None] when the key is absent. *)
Definition get (d : gmap string pyval) (k : string) : pyval :=
  default PNone (d !! k).

(** [d.get(k, dflt)]: the default only replaces an absent key. *)
Definition get_or (d : gmap string pyval) (k : string) (dflt : pyval) : pyval :=
  default dflt (d !! k).

(** ** Exceptions *)

(** An exception: its class, as far as the source tells classes apart
    ([json.JSONDecodeError] has a handler of its own), and [str(e)]. *)
Inductive exn_kind : Type := JSONDecodeError | OtherError.

Record exn : Type := { exn_kind_of : exn_kind; exn_msg : string }.

Inductive result (A : Type) : Type :=
| Ok (a : A)
| Raise (e : exn).
Arguments Ok {A} a.
Arguments Raise {A} e.

#[export] Instance result_bind : MBind result := fun A B f r =>
  match r with
  | Ok a => f a
  | Raise e => Raise e
  end.

#[export] Instance result_fmap : FMap result := fun A B f r =>
  match r with
  | Ok a => Ok (f a)
  | Raise e => Raise e
  end.

(** [try: body / except Exception as e: handler(e)]. *)
Definition try_except {A} (body : result A) (handler : exn -> result A) : result A :=
  match body with
  | Ok a => Ok a
  | Raise e => handler e
  end.

(** ** Characters and strings *)

Definition cp (c : ascii) : N := N_of_ascii c.

Definition in_range (lo hi : N) (c : ascii) : bool :=
  ((lo <=? cp c) && (cp c <=? hi))%N.

(** [\d]: the decimal digits; below U+0100 these are 0-9 only. *)
Definition is_digit (c : ascii) : bool := in_range 48 57 c.

(** [\s] and the characters [str.strip()] removes: TAB, LF, VT, FF, CR,
    the four separators 0x1C-0x1F, SPACE, NEL (0x85) and NBSP (0xA0). *)
Definition is_space (c : ascii) : bool :=
  in_range 9 13 c || in_range 28 32 c || (cp c =? 133)%N || (cp c =? 160)%N.

Definition is_ascii_alnum (c : ascii) : bool :=
  in_range 65 90 c || in_range 97 122 c || in_range 48 57 c.

(** Letters with a lower-case partner, and the cased letters, below U+0100. *)
Definition is_upper (c : ascii) : bool :=
  in_range 65 90 c || in_range 192 214 c || in_range 216 222 c.

Definition is_lower (c : ascii) : bool :=
  in_range 97 122 c || in_range 223 246 c || in_range 248 255 c
  || (cp c =? 170)%N || (cp c =? 181)%N || (cp c =? 186)%N.

Definition is_cased (c : ascii) : bool := is_upper c || is_lower c.

(** [\w]: alphanumeric (letters, digits, and the numeric signs 0xB2, 0xB3,
    0xB9, 0xBC-0xBE) or underscore. *)
Definition is_word (c : ascii) : bool :=
  is_ascii_alnum c || (cp c =? 95)%N || is_cased c
  || (cp c =? 178)%N || (cp c =? 179)%N || (cp c =? 185)%N || in_range 188 190 c.

Definition lower (c : ascii) : ascii :=
  if is_upper c then ascii_of_N (cp c + 32) else c.

(** Upper-casing of a letter whose partner stays below U+0100 (the partners
    of 0xB5, 0xDF and 0xFF do not, those letters are left as they are). *)
Definition upper (c : ascii) : ascii :=
  if in_range 97 122 c || in_range 224 246 c || in_range 248 254 c
  then ascii_of_N (cp c - 32) else c.

Fixpoint map_str (f : ascii -> ascii) (s : string) : string :=
  match s with
  | EmptyString => EmptyString
  | String c s' => String (f c) (map_str f s')
  end.

(** [s.lower()] *)
Definition str_lower (s : string) : string := map_str lower s.

(** [s.title()]: a letter that follows a cased letter is lower-cased, any
    other letter is upper-cased. *)
Fixpoint title_from (prev_cased : bool) (s : string) : string :=
  match s with
  | EmptyString => EmptyString
  | String c s' =>
      String (if prev_cased then lower c else upper c) (title_from (is_cased c) s')
  end.

Definition title (s : string) : string := title_from false s.

Fixpoint starts_with (p s : string) : bool :=
  match p, s with
  | EmptyString, _ => true
  | String a p', String b s' => Ascii.eqb a b && starts_with p' s'
  | String _ _, EmptyString => false
  end.

(** [sub in s] *)
Fixpoint contains (sub s : string) : bool :=
  starts_with sub s ||
  match s with
  | EmptyString => false
  | String _ s' => contains sub s'
  end.

Fixpoint drop_str (n : nat) (s : string) : string :=
  match n, s with
  | O, _ => s
  | S n', String _ s' => drop_str n' s'
  | S _, EmptyString => EmptyString
  end.

Fixpoint take_str (n : nat) (s : string) : string :=
  match n, s with
  | O, _ => EmptyString
  | S n', String c s' => String c (take_str n' s')
  | S _, EmptyString => EmptyString
  end.

Fixpoint lstrip (s : string) : string :=
  match s with
  | String c s' => if is_space c then lstrip s' else s
  | EmptyString => EmptyString
  end.

Fixpoint rstrip (s : string) : string :=
  match s with
  | EmptyString => EmptyString
  | String c s' =>
      match rstrip s' with
      | EmptyString => if is_space c then EmptyString else String c EmptyString
      | t => String c t
      end
  end.

(** [s.strip()] *)
Definition strip (s : string) : string := rstrip (lstrip s).

(** [s.split('\n')]: always at least one piece. *)
Fixpoint split_lines (s : string) : list string :=
  match s with
  | EmptyString => [EmptyString]
  | String c s' =>
      if Ascii.eqb c "010"%char then EmptyString :: split_lines s'
      else match split_lines s' with
           | l :: ls => String c l :: ls
           | [] => [String c EmptyString]
           end
  end.

(** ** Regular expressions

    The fragment of Python's [re] the program uses: literals and character
    sets, greedy bounded or unbounded repetition of a one-character item,
    concatenation and one capturing group.  [ends r s] lists, in the order
    the backtracking matcher tries them, every way [r] can match a prefix of
    [s]: the text captured by the group and the number of characters
    matched. *)

Inductive regex : Type :=
| Eps
| Chr (p : ascii -> bool)
| Rep (p : ascii -> bool) (lo : nat) (hi : option nat)
| Cat (r1 r2 : regex)
| Grp (r : regex).

(** Length of the run of [p]-characters at the head of [s]. *)
Fixpoint run_all (p : ascii -> bool) (s : string) : nat :=
  match s with
  | EmptyString => O
  | String c s' => if p c then S (run_all p s') else O
  end.

(** The same, no longer than the bound [hi]: the run within the first [hi]
    characters. *)
Definition run (p : ascii -> bool) (hi : option nat) (s : string) : nat :=
  match hi with
  | Some h => run_all p (take_str h s)
  | None => run_all p s
  end.

Definition or_else {A} (a b : option A) : option A :=
  match a with
  | Some _ => a
  | None => b
  end.

Fixpoint ends (r : regex) (s : string) : list (option string * nat) :=
  match r with
  | Eps => [(None, O)]
  | Chr p =>
      match s with
      | String c s' => if p c then [(None, 1%nat)] else []
      | EmptyString => []
      end
  | Rep p lo hi =>
      (* greedy: the longest run first, then one character less, ... *)
      let n := run p hi s in
      (fun j => (None, j)) <$> rev (seq lo (S n - lo))
  | Cat r1 r2 =>
      flat_map (fun e1 =>
        (fun e2 => (or_else (fst e2) (fst e1), (snd e1 + snd e2)%nat))
          <$> ends r2 (drop_str (snd e1) s))
        (ends r1 s)
  | Grp r' => (fun e => (Some (take_str (snd e) s), snd e)) <$> ends r' s
  end.

(** A match object: [group()] and [group(1)]. *)
Record Match : Type := { group0 : string; group1 : option string }.

(** The match of [r] that starts at the head of [s], if any: the first way
    the matcher finds. *)
Definition match_at (r : regex) (s : string) : option Match :=
  match ends r s with
  | e :: _ => Some {| group0 := take_str (snd e) s; group1 := fst e |}
  | [] => None
  end.

(** [re.search(r, s)]: the leftmost match. *)
Fixpoint re_search (r : regex) (s : string) : option Match :=
  match match_at r s with
  | Some m => Some m
  | None =>
      match s with
      | String _ s' => re_search r s'
      | EmptyString => None
      end
  end.

(** [re.findall(r, s)] for a pattern with one group: the group of every
    non-overlapping match, left to right.  [skip] counts the characters
    still covered by the previous match. *)
Fixpoint findall_from (r : regex) (skip : nat) (s : string) : list string :=
  match s with
  | EmptyString =>
      match skip, match_at r EmptyString with
      | O, Some m => [default EmptyString (group1 m)]
      | _, _ => []
      end
  | String _ s' =>
      match skip with
      | S k => findall_from r k s'
      | O =>
          match match_at r s with
          | Some m =>
              default EmptyString (group1 m)
                :: findall_from r (String.length (group0 m) - 1) s'
          | None => findall_from r O s'
          end
      end
  end.

Definition re_findall (r : regex) (s : string) : list string := findall_from r O s.

(** Pattern syntax. *)
Definition lit (c : ascii) : ascii -> bool := Ascii.eqb c.

(** A literal under [re.IGNORECASE]. *)
Definition lit_i (c : ascii) : ascii -> bool := fun x => Ascii.eqb (lower x) (lower c).

Definition pat (rs : list regex) : regex := foldr Cat Eps rs.

Fixpoint str_i (s : string) : regex :=
  match s with
  | EmptyString => Eps
  | String c s' => Cat (Chr (lit_i c)) (str_i s')
  end.

Fixpoint str_lit (s : string) : regex :=
  match s with
  | EmptyString => Eps
  | String c s' => Cat (Chr (lit c)) (str_lit s')
  end.

Definition colon_space (c : ascii) : bool := lit ":" c || is_space c.   (* [:\s] *)
Definition num_comma (c : ascii) : bool := is_digit c || lit "," c.     (* [0-9,] *)
Definition any_char (c : ascii) : bool := true.                         (* . with DOTALL *)
(** The rupee sign U+20A8 is not a modelled character. *)
Definition rupee_sign (c : ascii) : bool := false.

Definition many p := Rep p 0 None.                (* p* *)
Definition many1 p := Rep p 1 None.               (* p+ *)
Definition maybe p := Rep p 0 (Some 1).           (* p? *)
Definition exactly n p := Rep p n (Some n).       (* p{n} *)
Definition between lo hi p := Rep p lo (Some hi). (* p{lo,hi} *)
Definition at_least lo p := Rep p lo None.        (* p{lo,} *)

(** ** The outside world *)

Inductive draw_colour : Type :=
| Named (name : string)
| RGB (r g b : Z).

Inductive font : Type :=
| TrueType (path : string) (size : Z)
| DefaultFont.

(** One call on the [ImageDraw] object. *)
Inductive draw_op : Type :=
| DrawLine (x0 y0 x1 y1 : Z) (fill : draw_colour) (width : option Z)
| DrawRoundedRectangle (x0 y0 x1 y1 : Z) (radius : Z) (fill : draw_colour)
| DrawText (x y : Z) (text : string) (fill : draw_colour) (fnt : font)
           (anchor : option string).

(** The canvas of [Image.new('RGB', (width, height), color)] and the calls
    drawn on it so far, oldest first. *)
Record canvas : Type := {
  cv_width : Z;
  cv_height : Z;
  cv_background : draw_colour;
  cv_ops : list draw_op
}.

Inductive enhancer : Type := Contrast | Sharpness.

Section Panel.

(** A decoded image (a [PIL.Image] or an OpenCV array). *)
Context {image : Type}.

Record World : Type := {
  GEMINI_AVAILABLE : bool;
  (* Pillow *)
  Image_open : list byte -> result image;          (* Image.open(io.BytesIO(b)) *)
  image_mode : image -> string;                    (* img.mode *)
  image_convert : string -> image -> result image; (* img.convert(mode) *)
  enhance : enhancer -> Q -> image -> result image;
  font_file_found : string -> bool;                (* can truetype() load it *)
  png_encode : canvas -> list byte;                (* img.save(buffer, 'PNG') *)
  b64encode : list byte -> string;
  (* OpenCV *)
  cv2_imdecode : list byte -> result (option image);
  cv2_cvtColor_gray : image -> result image;
  cv2_fastNlMeansDenoising : image -> result image;
  cv2_threshold_otsu : image -> result image;
  Image_fromarray : image -> result image;
  (* Tesseract *)
  image_to_string : image -> string -> result string;
  (* Gemini: the text of the reply to the prompt and the image *)
  generate_content : image -> result string;
  (* json.loads on a text that starts with an opening and ends with a
     closing brace: an object, or JSONDecodeError *)
  json_loads : string -> result (gmap string pyval);
  (* the clock, as strftime("%B %d, %Y at %H:%M") prints it *)
  now_text : string;
  (* str() of a float, a list or a dict *)
  str_compound : pyval -> string
}.

End Panel.
Arguments World image : clear implicits.

Definition other_error (msg : string) : exn :=
  {| exn_kind_of := OtherError; exn_msg := msg |}.

(** [try: body / except json.JSONDecodeError: handler]: any other
    exception passes through. *)
Definition try_except_json {A} (body : result A) (handler : exn -> result A) : result A :=
  match body with
  | Ok a => Ok a
  | Raise e =>
      match exn_kind_of e with
      | JSONDecodeError => handler e
      | OtherError => Raise e
      end
  end.

(** ** Vision Extraction Adapter *)

(** [r'\{.*\}'] with [re.DOTALL] *)
Definition json_span : regex := pat [Chr (lit "{"); many any_char; Chr (lit "}")].

(** The body of the outer [try].  [response.text] is read inside the inner
    [try]; an exception it raises is no [JSONDecodeError] and reaches the
    outer handler like one raised by the call, so the oracle
    [generate_content] stands for both. *)
Definition extract_with_gemini_try {image} (w : World image)
    (image_data : list byte) (mime_type : string) : result (gmap string pyval) :=
  if negb (GEMINI_AVAILABLE w) then Ok ∅
  else
    pil_image ← Image_open w image_data;
    response_text_raw ← generate_content w pil_image;
    try_except_json
      (let response_text := strip response_text_raw in
       match re_search json_span response_text with
       | Some json_match =>
           extracted_data ← json_loads w (group0 json_match);
           Ok extracted_data
       | None => Ok {[ "all_text" := PStr response_text ]}
       end)
      (fun e => Ok {[ "all_text" := PStr response_text_raw ]}).

Definition extract_with_gemini {image} (w : World image)
    (image_data : list byte) (mime_type : string) : result (gmap string pyval) :=
  try_except
    (extract_with_gemini_try w image_data mime_type)
    (fun e => Ok {[ "error" := PStr (exn_msg e) ]}).

(** ** Field Parser *)

Definition initial_data (text : string) : gmap string pyval :=
  list_to_map
    [ ("transaction_id", PNone);
      ("amount", PNone);
      ("date", PNone);
      ("sender", PNone);
      ("receiver", PNone);
      ("fee", PNone);
      ("payment_method", PNone);
      ("status", PNone);
      ("phone_numbers", PList []);
      ("reference", PNone);
      ("bank_info", PNone);
      ("location", PNone);
      ("all_text", PStr text) ].

(** The group around [[A-Za-z0-9]+]. *)
Definition alnum_group : regex := Grp (many1 is_ascii_alnum).

(** The group around [[0-9,]+\.?\d*], the numeric text. *)
Definition number_group : regex :=
  Grp (pat [many1 num_comma; maybe (lit "."); many is_digit]).

(** [r'Rs\.?\s*'] *)
Definition rs_prefix : list regex := [str_i "Rs"; maybe (lit "."); many is_space].

(** [\w+\s+\d{1,2},\s+\d{4}\s+at\s+\d{1,2}:\d{2}] *)
Definition long_date : list regex :=
  [ many1 is_word; many1 is_space; between 1 2 is_digit; Chr (lit ",");
    many1 is_space; exactly 4 is_digit; many1 is_space; str_i "at";
    many1 is_space; between 1 2 is_digit; Chr (lit ":"); exactly 2 is_digit ].

Definition tid_pattern : regex := pat [str_i "TID"; many colon_space; alnum_group].
Definition transaction_id_pattern : regex :=
  pat [str_i "Transaction"; many1 is_space; str_i "ID"; many colon_space; alnum_group].
Definition ref_pattern : regex := pat [str_i "Ref"; many colon_space; alnum_group].
Definition reference_pattern : regex :=
  pat [str_i "Reference"; many colon_space; alnum_group].

Definition rs_pattern : regex := pat (rs_prefix ++ [number_group]).
Definition pkr_pattern : regex := pat [str_i "PKR"; many is_space; number_group].
Definition rupee_pattern : regex := pat [Chr rupee_sign; many is_space; number_group].

Definition transaction_id_patterns : list regex :=
  [tid_pattern; transaction_id_pattern; ref_pattern; reference_pattern].

Definition amount_patterns : list regex := [rs_pattern; pkr_pattern; rupee_pattern].

Definition date_patterns : list regex :=
  [ Grp (pat long_date);
    pat [str_i "On"; many1 is_space; Grp (pat long_date)];
    Grp (pat [ between 1 2 is_digit; Chr (lit "/"); between 1 2 is_digit;
               Chr (lit "/"); exactly 4 is_digit; many1 is_space;
               between 1 2 is_digit; Chr (lit ":"); exactly 2 is_digit ]) ].

Definition fee_patterns : list regex :=
  [ pat ([str_i "Fee"; many colon_space] ++ rs_prefix ++ [number_group]);
    pat ([str_i "Charges"; many colon_space] ++ rs_prefix ++ [number_group]) ].

(** The [patterns] dictionary, in insertion order; every pattern is
    searched with [re.IGNORECASE]. *)
Definition patterns : list (string * list regex) :=
  [ ("transaction_id", transaction_id_patterns);
    ("amount", amount_patterns);
    ("date", date_patterns);
    ("fee", fee_patterns) ].

(** The inner loop: the first pattern of the list that matches, then [break]. *)
Fixpoint first_match (field_patterns : list regex) (text : string) : option Match :=
  match field_patterns with
  | [] => None
  | pattern :: rest =>
      match re_search pattern text with
      | Some m => Some m
      | None => first_match rest text
      end
  end.

(** [f"{g}"] for a group: a group that did not take part prints as None. *)
Definition format_group (g : option string) : string := default "None" g.

Definition group_value (g : option string) : pyval := from_option PStr PNone g.

Definition apply_field (text : string) (data : gmap string pyval)
    (entry : string * list regex) : gmap string pyval :=
  let (field, field_patterns) := entry in
  match first_match field_patterns text with
  | Some m =>
      if bool_decide (field ∈ ["amount"; "fee"])
      then <[field := PStr ("Rs. " ++ format_group (group1 m))]> data
      else <[field := group_value (group1 m)]> data
  | None => data
  end.

Definition apply_patterns (text : string) (data : gmap string pyval) : gmap string pyval :=
  foldl (apply_field text) data patterns.

Definition plus92_pattern : regex := Grp (pat [str_lit "+92"; exactly 10 is_digit]). (* (\+92\d{10}) *)
Definition mobile_pattern : regex := Grp (pat [str_lit "03"; exactly 9 is_digit]).   (* (03\d{9}) *)
Definition eleven_pattern : regex := Grp (exactly 11 is_digit).                      (* (\d{11}) *)

Definition phone_patterns : list regex := [plus92_pattern; mobile_pattern; eleven_pattern].

(** The set [phone_numbers] after the loop over [phone_patterns]. *)
Definition phone_numbers (text : string) : gset string :=
  foldl (fun numbers pattern => numbers ∪ list_to_set (re_findall pattern text))
        ∅ phone_patterns.

(** [r'\d{10,}'] *)
Definition digit_run : regex := at_least 10 is_digit.

(** The body of the loop over [enumerate(lines)]. *)
Definition scan_line (lines : list string) (data : gmap string pyval)
    (i : nat) (line : string) : gmap string pyval :=
  let line_lower := str_lower line in
  let data :=
    if contains "from" line_lower && (i + 1 <? length lines)%nat then
      let potential_sender := strip (default EmptyString (lines !! (i + 1)%nat)) in
      if negb (bool_decide (is_Some (re_search digit_run potential_sender)))
      then <["sender" := PStr potential_sender]> data
      else data
    else data in
  let data :=
    if contains "to" line_lower && negb (contains "total" line_lower)
       && (i + 1 <? length lines)%nat then
      let potential_receiver := strip (default EmptyString (lines !! (i + 1)%nat)) in
      if negb (bool_decide (is_Some (re_search digit_run potential_receiver)))
      then <["receiver" := PStr potential_receiver]> data
      else data
    else data in
  if contains "successful" line_lower then <["status" := PStr "Successful"]> data
  else if contains "failed" line_lower then <["status" := PStr "Failed"]> data
  else if contains "pending" line_lower then <["status" := PStr "Pending"]> data
  else data.

(** The loop from index [i] on, [rest] being [lines[i:]]. *)
Fixpoint scan_from (lines : list string) (i : nat) (rest : list string)
    (data : gmap string pyval) : gmap string pyval :=
  match rest with
  | [] => data
  | line :: rest' => scan_from lines (S i) rest' (scan_line lines data i line)
  end.

Definition scan_lines (lines : list string) (data : gmap string pyval) : gmap string pyval :=
  scan_from lines 0 lines data.

Definition methods : list string :=
  ["jazzcash"; "easypaisa"; "ubl"; "hbl"; "bank"; "wallet"].

Fixpoint detect_method (ms : list string) (text : string)
    (data : gmap string pyval) : gmap string pyval :=
  match ms with
  | [] => data
  | method :: ms' =>
      if contains method (str_lower text)
      then <["payment_method" := PStr (title method)]> data
      else detect_method ms' text data
  end.

Definition parse_text_manually (text : string) : gmap string pyval :=
  let data := initial_data text in
  let data := apply_patterns text data in
  let data := <["phone_numbers" := PList (PStr <$> elements (phone_numbers text))]> data in
  let data := scan_lines (split_lines text) data in
  detect_method methods text data.

(** ** Extraction Orchestrator *)

(** What [upload_file] hands to [jsonify]: the success payload, or the
    error payload and status of its catch-all handler.  The checks on the
    uploaded file name that come first, and the echo of the file as a data
    URL, are request plumbing and are left out. *)
Inductive response : Type :=
| Success (extracted_data : gmap string pyval) (extraction_method : string)
          (gemini_available : bool)
| Failure (status : Z) (error : string).

(** [gemini_data and not gemini_data.get('error') and gemini_data.get('all_text')] *)
Definition gemini_accepted (gemini_data : gmap string pyval) : bool :=
  truthy (PDict gemini_data)
  && negb (truthy (get gemini_data "error"))
  && truthy (get gemini_data "all_text").

Definition upload_file_body {image} (w : World image)
    (extract_with_tesseract : list byte -> result string)
    (file_data : list byte) (content_type : string)
    : result (gmap string pyval * string) :=
  let extraction_method := "tesseract" in
  let extracted_data : gmap string pyval := ∅ in
  chosen ←
    (if GEMINI_AVAILABLE w then
       gemini_data ← extract_with_gemini w file_data content_type;
       if gemini_accepted gemini_data
       then Ok (gemini_data, "gemini")
       else Ok (extracted_data, extraction_method)
     else Ok (extracted_data, extraction_method));
  let '(extracted_data, extraction_method) := chosen in
  if negb (truthy (get extracted_data "all_text")) then
    tesseract_text ← extract_with_tesseract file_data;
    Ok (parse_text_manually tesseract_text, "tesseract")
  else Ok (extracted_data, extraction_method).

Definition upload_file_with {image} (w : World image)
    (extract_with_tesseract : list byte -> result string)
    (file_data : list byte) (content_type : string) : response :=
  match upload_file_body w extract_with_tesseract file_data content_type with
  | Ok (extracted_data, extraction_method) =>
      Success extracted_data extraction_method (GEMINI_AVAILABLE w)
  | Raise e => Failure 500 ("Processing failed: " ++ exn_msg e)
  end.

(** ** Image Preprocessor and Text Recognition Adapter *)

(** The loop over [configs] of [extract_with_tesseract]: a configuration
    that raises is skipped, a strictly longer stripped text replaces the
    best one. *)
Definition best_of_configs {image} (w : World image) (processed_image : image)
    (configs : list string) : string :=
  foldl (fun best_text config =>
    match image_to_string w processed_image config with
    | Ok text =>
        if Nat.ltb (String.length (strip best_text)) (String.length (strip text))
        then text else best_text
    | Raise _ => best_text
    end) EmptyString configs.

(** [complete_panel_with_generation.py] *)
Module Complete.
Section WithWorld.
Context {image : Type} (w : World image).

(** The steps after decoding: grayscale, contrast, sharpness. *)
Definition enhance_for_ocr (pil_image : image) : result image :=
  pil_image ← (if negb (String.eqb (image_mode w pil_image) "L")
               then image_convert w "L" pil_image
               else Ok pil_image);
  pil_image ← enhance w Contrast 1.5%Q pil_image;
  pil_image ← enhance w Sharpness 2.0%Q pil_image;
  Ok pil_image.

Definition preprocess_image_for_ocr (image_data : list byte) : result image :=
  try_except
    (pil_image ← Image_open w image_data;
     enhance_for_ocr pil_image)
    (fun e => Image_open w image_data).

Definition configs : list string :=
  [ "--psm 6 -c tessedit_char_whitelist=0123456789ABCDEFGHIJKLMNOPQRSTUVWXYZabcdefghijklmnopqrstuvwxyz:.,/-+ ";
    "--psm 4";
    "--psm 3" ].

Definition extract_with_tesseract (image_data : list byte) : result string :=
  try_except
    (processed_image ← preprocess_image_for_ocr image_data;
     Ok (best_of_configs w processed_image configs))
    (fun e => Ok EmptyString).

Definition upload_file (file_data : list byte) (content_type : string) : response :=
  upload_file_with w extract_with_tesseract file_data content_type.

(** *** Receipt Synthesizer *)

Definition bold_font_path : string := "/usr/share/fonts/truetype/dejavu/DejaVuSans-Bold.ttf".
Definition regular_font_path : string := "/usr/share/fonts/truetype/dejavu/DejaVuSans.ttf".

(** The three [truetype] calls share one [try]: if one fails, all three
    fonts are the built-in default.  The result is
    [(title_font, text_font, large_font)]. *)
Definition load_fonts : font * font * font :=
  if font_file_found w bold_font_path && font_file_found w regular_font_path
  then (TrueType bold_font_path 24, TrueType regular_font_path 16, TrueType bold_font_path 32)
  else (DefaultFont, DefaultFont, DefaultFont).

Definition add_op (img : canvas) (op : draw_op) : canvas :=
  {| cv_width := cv_width img; cv_height := cv_height img;
     cv_background := cv_background img; cv_ops := cv_ops img ++ [op] |}.

(** [draw.text(xy, text, ...)]: Pillow accepts a string and raises on any
    other value (it starts by testing whether a newline is in [text]). *)
Definition draw_text (img : canvas) (xy : Z * Z) (text : pyval) (fill : draw_colour)
    (fnt : font) (anchor : option string) : result canvas :=
  match text with
  | PStr s => Ok (add_op img (DrawText (fst xy) (snd xy) s fill fnt anchor))
  | _ => Raise (other_error "TypeError")
  end.

(** [len(v)] *)
Definition py_len (v : pyval) : result nat :=
  match v with
  | PStr s => Ok (String.length s)
  | PList l => Ok (length l)
  | PDict d => Ok (size d)
  | _ => Raise (other_error "TypeError")
  end.

(** [v[i]] for an index [i]; the keys of a decoded JSON object are strings,
    so an integer key is never found. *)
Definition py_index (v : pyval) (i : nat) : result pyval :=
  match v with
  | PList l => from_option Ok (Raise (other_error "IndexError")) (l !! i)
  | PStr s =>
      match String.get i s with
      | Some c => Ok (PStr (String c EmptyString))
      | None => Raise (other_error "IndexError")
      end
  | PDict _ => Raise (other_error "KeyError")
  | _ => Raise (other_error "TypeError")
  end.

(** [f"{v}"] *)
Definition format_value (v : pyval) : string :=
  match v with
  | PStr s => s
  | PNone => "None"
  | PBool true => "True"
  | PBool false => "False"
  | PInt z => NilZero.string_of_int (Z.to_int z)
  | _ => str_compound w v
  end.

Definition channel (c1 c2 y height : Z) : Z := (c1 + (c2 - c1) * y / height)%Z.

(** The gradient loop: one horizontal line per row. *)
Definition gradient (color1 color2 : Z * Z * Z) (width height : Z) : list draw_op :=
  (fun y : nat =>
     let y := Z.of_nat y in
     let '(r1, g1, b1) := color1 in
     let '(r2, g2, b2) := color2 in
     DrawLine 0 y width y
       (RGB (channel r1 r2 y height) (channel g1 g2 y height) (channel b1 b2 y height))
       None)
  <$> seq 0 (Z.to_nat height).

(** The drawing part of [generate_new_screenshot], up to [img.save]. *)
Definition render (edited_data : gmap string pyval) (template_type : pyval)
    : result canvas :=
  let width := 400%Z in
  let height := 600%Z in
  template_lower ←
    match template_type with
    | PStr t => Ok (str_lower t)
    | _ => Raise (other_error "AttributeError")
    end;
  let '(color1, color2) :=
    if String.eqb template_lower "jazzcash"
    then ((255, 165, 0), (255, 140, 0))%Z
    else ((34, 139, 34), (0, 100, 0))%Z in
  let img :=
    {| cv_width := width; cv_height := height;
       cv_background := (let '(r, g, b) := color1 in RGB r g b);
       cv_ops := gradient color1 color2 width height |} in
  let '(title_font, text_font, large_font) := load_fonts in
  let img := add_op img (DrawRoundedRectangle 50 80 (width - 50) (height - 80) 15 (Named "white")) in
  (* Title *)
  let status := get_or edited_data "status" (PStr "Transaction Successful") in
  img ← draw_text img (width / 2, 50)%Z status (Named "white") title_font (Some "mm");
  (* Transaction ID *)
  let tid := get_or edited_data "transaction_id" (PStr "") in
  img ← (if truthy tid
         then draw_text img (width / 2, 120)%Z (PStr ("TID: " ++ format_value tid))
                        (Named "black") text_font (Some "mm")
         else Ok img);
  (* Date *)
  let date := get_or edited_data "date" (PStr (now_text w)) in
  img ← draw_text img (width / 2, 145)%Z date (Named "gray") text_font (Some "mm");
  (* Amount (large) *)
  let amount := get_or edited_data "amount" (PStr "Rs. 0.00") in
  img ← draw_text img (width / 2, 220)%Z amount (Named "black") large_font (Some "mm");
  (* Payment method *)
  let method := get_or edited_data "payment_method" (PStr "QR Payment") in
  img ← draw_text img (width / 2, 260)%Z method (Named "gray") text_font (Some "mm");
  (* Fee *)
  let fee := get_or edited_data "fee" (PStr "Rs. 0.00") in
  img ← draw_text img (70, 320)%Z (PStr "Fee") (Named "black") text_font None;
  img ← draw_text img (width - 70, 320)%Z fee (Named "black") text_font (Some "rm");
  (* Separator line *)
  let img := add_op img (DrawLine 70 345 (width - 70) 345 (Named "lightgray") (Some 1%Z)) in
  (* To *)
  let receiver := get_or edited_data "receiver" (PStr "Receiver Name") in
  let phone_numbers := get_or edited_data "phone_numbers" (PList []) in
  receiver_phone ← (if truthy phone_numbers then py_index phone_numbers 0 else Ok (PStr ""));
  img ← draw_text img (70, 370)%Z (PStr "To") (Named "black") text_font None;
  img ← draw_text img (width - 70, 370)%Z receiver (Named "black") text_font (Some "rm");
  img ← (if truthy receiver_phone
         then draw_text img (width - 70, 395)%Z receiver_phone (Named "gray") text_font (Some "rm")
         else Ok img);
  (* Separator line *)
  let img := add_op img (DrawLine 70 425 (width - 70) 425 (Named "lightgray") (Some 1%Z)) in
  (* From *)
  let sender := get_or edited_data "sender" (PStr "Sender Name") in
  n ← py_len phone_numbers;
  sender_phone ← (if (1 <? n)%nat then py_index phone_numbers 1
                  else if truthy phone_numbers then py_index phone_numbers 0
                  else Ok (PStr ""));
  img ← draw_text img (70, 450)%Z (PStr "From") (Named "black") text_font None;
  img ← draw_text img (width - 70, 450)%Z sender (Named "black") text_font (Some "rm");
  img ← (if truthy sender_phone
         then draw_text img (width - 70, 475)%Z sender_phone (Named "gray") text_font (Some "rm")
         else Ok img);
  (* Bottom branding *)
  let brand_text :=
    match template_type with
    | PStr t => if truthy template_type then title t else "Payment App"
    | _ => "Payment App"
    end in
  img ← draw_text img (width / 2, height - 30)%Z (PStr ("Securely paid via " ++ brand_text))
                  (Named "white") text_font (Some "mm");
  Ok img.

(** The data URL of the PNG, or [None] when anything above raised. *)
Definition generate_new_screenshot (edited_data : gmap string pyval)
    (template_type : pyval) : option string :=
  match render edited_data template_type with
  | Ok img => Some ("data:image/png;base64," ++ b64encode w (png_encode w img))
  | Raise e => None
  end.

(** The strings drawn on a canvas. *)
Definition drawn_texts (img : canvas) : list string :=
  omap (fun op => match op with DrawText _ _ t _ _ _ => Some t | _ => None end) (cv_ops img).

End WithWorld.
End Complete.

(** [single_file_panel.py] *)
Module Single.
Section WithWorld.
Context {image : Type} (w : World image).

Definition preprocess_image_for_ocr (image_data : list byte) : result (option image) :=
  try_except
    (img ← cv2_imdecode w image_data;
     match img with
     | None => Ok None
     | Some img =>
         gray ← cv2_cvtColor_gray w img;
         denoised ← cv2_fastNlMeansDenoising w gray;
         thresh ← cv2_threshold_otsu w denoised;
         pil_image ← Image_fromarray w thresh;
         Ok (Some pil_image)
     end)
    (fun e => Some <$> Image_open w image_data).

Definition configs : list string := ["--psm 6"; "--psm 4"; "--psm 3"].

Definition extract_with_tesseract (image_data : list byte) : result string :=
  try_except
    (processed_image ← preprocess_image_for_ocr image_data;
     match processed_image with
     | None => Ok EmptyString
     | Some processed_image => Ok (best_of_configs w processed_image configs)
     end)
    (fun e => Ok EmptyString).

Definition upload_file (file_data : list byte) (content_type : string) : response :=
  upload_file_with w extract_with_tesseract file_data content_type.

End WithWorld.
End Single.

(** ** Reading a rendered canvas *)

(** The strings drawn at the position [(x, y)], in drawing order. *)
Definition texts_at (x y : Z) (img : canvas) : list string :=
  omap (fun op =>
          match op with
          | DrawText x' y' t _ _ _ => if ((x =? x') && (y =? y'))%Z then Some t else None
          | _ => None
          end) (cv_ops img).

(** The record keys the synthesizer reads with a default, the position at
    which each value is drawn, and the default. *)
Definition slots {image} (w : World image) : list (string * (Z * Z) * string) :=
  [ ("status", (200, 50)%Z, "Transaction Successful");
    ("date", (200, 145)%Z, now_text w);
    ("amount", (200, 220)%Z, "Rs. 0.00");
    ("payment_method", (200, 260)%Z, "QR Payment");
    ("fee", (330, 320)%Z, "Rs. 0.00");
    ("receiver", (330, 370)%Z, "Receiver Name");
    ("sender", (330, 450)%Z, "Sender Name") ].

(** The first keyword of the status chain found in a line. *)
Definition line_status (line : string) : option string :=
  let line_lower := str_lower line in
  if contains "successful" line_lower then Some "Successful"
  else if contains "failed" line_lower then Some "Failed"
  else if contains "pending" line_lower then Some "Pending"
  else None.

(** ** Shapes of texts and matches *)


(** The characters of [s] at the positions 1 to [n]-1 are digits. *)
Definition digits_after_first (n : nat) (s : string) : Prop :=
  forall i, (1 <= i < n)%nat -> exists c, String.get i s = Some c /\ is_digit c = true.

(** Every match of [r] is [n] characters long, is the text of the group,
    and consists of digits after its first character. *)
Definition fixed_span (r : regex) (n : nat) : Prop :=
  forall s m, match_at r s = Some m ->
    (n <= String.length s)%nat /\ group0 m = take_str n s /\
    group1 m = Some (take_str n s) /\ digits_after_first n s.


(** ** The fixed key set of a PaymentRecord *)

Definition record_keys : gset string :=
  {[ "transaction_id"; "amount"; "date"; "sender"; "receiver"; "fee";
     "payment_method"; "status"; "reference"; "bank_info"; "location";
     "phone_numbers"; "all_text" ]}.

(** ** Example worlds

    Concrete oracles for the instances checked below.  An image is
    represented by the bytes it was decoded from. *)

Definition decode_error : exn := other_error "cannot identify image file".
Definition json_error : exn := {| exn_kind_of := JSONDecodeError; exn_msg := "Expecting value" |}.

Definition example_world (decodable : bool) (reply : result string)
    (loads : string -> result (gmap string pyval)) (ocr : result string)
    : World (list byte) :=
  {| GEMINI_AVAILABLE := true;
     Image_open := fun b => if decodable then Ok b else Raise decode_error;
     image_mode := fun _ => "RGB";
     image_convert := fun _ img => Ok img;
     enhance := fun _ _ img => Ok img;
     font_file_found := fun _ => true;
     png_encode := fun _ => [];
     b64encode := fun _ => EmptyString;
     cv2_imdecode := fun b => if decodable then Ok (Some b) else Ok None;
     cv2_cvtColor_gray := Ok;
     cv2_fastNlMeansDenoising := Ok;
     cv2_threshold_otsu := Ok;
     Image_fromarray := Ok;
     image_to_string := fun _ _ => ocr;
     generate_content := fun _ => reply;
     json_loads := loads;
     now_text := "January 05, 2026 at 10:30";
     str_compound := fun _ => EmptyString |}.

Definition quoted (s : string) : string := String "034" (s ++ String "034" EmptyString).

(** The JSON text of an object whose two values are strings. *)
Definition json_text2 (k1 v1 k2 v2 : string) : string :=
  "{" ++ quoted k1 ++ ": " ++ quoted v1 ++ ", " ++ quoted k2 ++ ": " ++ quoted v2 ++ "}".

(** [json.loads] on the one text [expected], which decodes to [d]. *)
Definition loads_only (expected : string) (d : gmap string pyval)
    : string -> result (gmap string pyval) :=
  fun s => if String.eqb s expected then Ok d else Raise json_error.

Definition newline : string := String "010" EmptyString.

(** A reply with a key outside the schema and most schema keys missing. *)
Definition extra_key_reply : string := json_text2 "all_text" "Paid Rs. 500" "note" "ok".
Definition extra_key_record : gmap string pyval :=
  {[ "all_text" := PStr "Paid Rs. 500"; "note" := PStr "ok" ]}.
Definition extra_key_world : World (list byte) :=
  example_world true (Ok extra_key_reply) (loads_only extra_key_reply extra_key_record)
                (Ok "Paid Rs. 500").

(** A reply whose [error] key is present with the value null. *)
Definition null_error_record : gmap string pyval :=
  {[ "error" := PNone; "all_text" := PStr "Paid Rs. 500" ]}.
Definition null_error_reply : string :=
  "{" ++ quoted "error" ++ ": null, " ++ quoted "all_text" ++ ": " ++ quoted "Paid Rs. 500" ++ "}".
Definition null_error_world : World (list byte) :=
  example_world true (Ok null_error_reply) (loads_only null_error_reply null_error_record)
                (Ok "Paid Rs. 500").

(** The service call fails. *)
Definition failing_service_world : World (list byte) :=
  example_world true (Raise (other_error "quota exceeded")) (fun _ => Raise json_error)
                (Ok "Paid Rs. 500").

(** No buffer decodes. *)
Definition undecodable_world : World (list byte) :=
  example_world false (Raise (other_error "unreachable")) (fun _ => Raise json_error)
                (Ok EmptyString).

(** ** More shapes of texts *)

(** Every character of [s] satisfies [p]. *)
Fixpoint all_chars (p : ascii -> bool) (s : string) : bool :=
  match s with
  | EmptyString => true
  | String c s' => p c && all_chars p s'
  end.
(** The texts the phone patterns can capture: [+92] and ten digits, or
    eleven digits. *)
Definition phone_shape (g : string) : Prop :=
  (exists d, g = "+92" ++ d /\ String.length d = 10%nat /\ all_chars is_digit d = true) \/
  (String.length g = 11%nat /\ all_chars is_digit g = true).
(** The texts the numeric group can capture: digits and commas, then at
    most one dot, then digits. *)
Definition numeric_text (cap : string) : Prop :=
  exists c1 c2 c3, cap = c1 ++ c2 ++ c3 /\
    c1 <> EmptyString /\ all_chars num_comma c1 = true /\
    (c2 = EmptyString \/ c2 = ".") /\ all_chars is_digit c3 = true.

(** ** The routes

    The two request handlers around the orchestrator and the synthesizer.
    A request is what the handler reads of it; a reply is what it hands to
    [jsonify] and the status code. *)

Definition ALLOWED_EXTENSIONS : gset string :=
  {[ "png"; "jpg"; "jpeg"; "gif"; "bmp"; "webp" ]}.

(** The text before and the text after the last [sep] of [s]. *)
Fixpoint split_last (sep : ascii) (s : string) : option (string * string) :=
  match s with
  | EmptyString => None
  | String c s' =>
      match split_last sep s' with
      | Some (before, after) => Some (String c before, after)
      | None => if Ascii.eqb sep c then Some (EmptyString, s') else None
      end
  end.

(** [s.rsplit(sep, 1)] for a separator of one character. *)
Definition rsplit1 (sep : ascii) (s : string) : list string :=
  match split_last sep s with
  | Some (before, after) => [before; after]
  | None => [s]
  end.

(** [allowed_file]: the index [1] raises when the split gave one piece. *)
Definition allowed_file (filename : string) : result bool :=
  if contains "." filename then
    ext ← from_option Ok (Raise (other_error "list index out of range"))
                      (rsplit1 "." filename !! 1%nat);
    Ok (bool_decide (str_lower ext ∈ ALLOWED_EXTENSIONS))
  else Ok false.

(** The name of the type of a value, as in the message of an
    [AttributeError]. *)
Definition type_name (v : pyval) : string :=
  match v with
  | PNone => "NoneType"
  | PBool _ => "bool"
  | PInt _ => "int"
  | PFloat _ => "float"
  | PStr _ => "str"
  | PList _ => "list"
  | PDict _ => "dict"
  end.

Module Routes.

(** An uploaded file: a werkzeug [FileStorage], whose truth value is that
    of its file name. *)
Record FileStorage : Type := {
  filename : string;
  content_type : string;
  read : list byte   (* file.read() *)
}.

(** [jsonify(body), status] *)
Record reply : Type := { status : Z; body : gmap string pyval }.

Definition error_reply (code : Z) (msg : string) : reply :=
  {| status := code; body := {[ "error" := PStr msg ]} |}.

Section WithWorld.
Context {image : Type} (w : World image).
(** [secure_filename] of werkzeug and the clock, as
    [strftime("%Y%m%d_%H%M%S")] prints it. *)
Variable secure_filename : string -> string.
Variable timestamp : string.
(** The text recognition adapter of the file at hand. *)
Variable extract_with_tesseract : list byte -> result string.

(** [upload_file], from [request.files]: the parsed file parts, or the
    exception that reading the request raises (a body larger than
    [MAX_CONTENT_LENGTH] raises [RequestEntityTooLarge]).  The request is
    read inside the [try], at the first test. *)
Definition upload_file (request_files : result (gmap string FileStorage)) : reply :=
  match
    files ← request_files;
    match files !! "file" with
    | None => Ok (error_reply 400 "No file provided")
    | Some file =>
        if String.eqb (filename file) "" then Ok (error_reply 400 "No file selected")
        else
          refused ← (if negb (truthy (PStr (filename file))) then Ok true
                     else negb <$> allowed_file (filename file));
          if (refused : bool) then Ok (error_reply 400 "Invalid file type")
          else
            let file_data := read file in
            let name := timestamp ++ "_" ++ secure_filename (filename file) in
            chosen ← upload_file_body w extract_with_tesseract file_data (content_type file);
            let '(extracted_data, extraction_method) := chosen in
            let image_url :=
              "data:" ++ content_type file ++ ";base64," ++ b64encode w file_data in
            Ok {| status := 200;
                  body := {[ "success" := PBool true;
                             "filename" := PStr name;
                             "extracted_data" := PDict extracted_data;
                             "extraction_method" := PStr extraction_method;
                             "gemini_available" := PBool (GEMINI_AVAILABLE w);
                             "image_url" := PStr image_url ]} |}
    end
  with
  | Ok r => r
  | Raise e => error_reply 500 ("Processing failed: " ++ exn_msg e)
  end.

(** [generate_screenshot], from [request.json]: the decoded body, or the
    exception Flask raises for a body that is no JSON. *)
Definition generate_screenshot (request_json : result pyval) : reply :=
  match
    data ← request_json;
    if negb (truthy data) then Ok (error_reply 400 "No data provided")
    else
      match data with
      | PDict d =>
          let template_type := get_or d "template_type" (PStr "jazzcash") in
          match Complete.generate_new_screenshot w d template_type with
          | Some screenshot_url =>
              if truthy (PStr screenshot_url)
              then Ok {| status := 200;
                         body := {[ "success" := PBool true;
                                    "screenshot_url" := PStr screenshot_url;
                                    "template_used" := template_type ]} |}
              else Ok (error_reply 500 "Screenshot generation failed")
          | None => Ok (error_reply 500 "Screenshot generation failed")
          end
      | _ =>
          Raise (other_error
                   ("'" ++ type_name data ++ "' object has no attribute 'get'"))
      end
  with
  | Ok r => r
  | Raise e => error_reply 500 ("Generation failed: " ++ exn_msg e)
  end.

End WithWorld.
End Routes.

(** ** Auxiliary notions for the properties *)

(** Any character but [c]. *)
Definition not_char (c : ascii) : ascii -> bool := fun x => negb (lit c x).

(** One round of the loop of [best_of_configs]. *)
Definition keep_longer {image} (w : World image) (img : image)
    (best_text config : string) : string :=
  match image_to_string w img config with
  | Ok text =>
      if Nat.ltb (String.length (strip best_text)) (String.length (strip text))
      then text else best_text
  | Raise _ => best_text
  end.

(** The keys whose values the synthesizer draws with a default. *)
Definition displayed_keys : list string :=
  ["status"; "date"; "amount"; "payment_method"; "fee"; "receiver"; "sender"].

(** What the line at index [i] makes the receiver, if anything: the
    receiver branch of the loop body of [parse_text_manually]. *)
Definition receiver_candidate (lines : list string) (i : nat) (line : string)
    : option string :=
  let line_lower := str_lower line in
  if contains "to" line_lower && negb (contains "total" line_lower)
     && (i + 1 <? length lines)%nat then
    let potential_receiver := strip (default EmptyString (lines !! (i + 1)%nat)) in
    if negb (bool_decide (is_Some (re_search digit_run potential_receiver)))
    then Some potential_receiver
    else None
  else None.

(** ** More examples *)

(** Text recognition that depends on the configuration: the first gives
    blanks, the second a text, the third fails. *)
Definition per_config_ocr (config : string) : result string :=
  if String.eqb config "--psm 4" then Ok "Paid Rs. 500 "
  else if String.eqb config "--psm 3" then Raise (other_error "tesseract failed")
  else Ok "   ".

Definition per_config_world : World (list byte) :=
  {| GEMINI_AVAILABLE := false;
     Image_open := Ok;
     image_mode := fun _ => "L";
     image_convert := fun _ img => Ok img;
     enhance := fun _ _ img => Ok img;
     font_file_found := fun _ => false;
     png_encode := fun _ => [];
     b64encode := fun _ => EmptyString;
     cv2_imdecode := fun b => Ok (Some b);
     cv2_cvtColor_gray := Ok;
     cv2_fastNlMeansDenoising := Ok;
     cv2_threshold_otsu := Ok;
     Image_fromarray := Ok;
     image_to_string := fun _ config => per_config_ocr config;
     generate_content := fun _ => Raise (other_error "unreachable");
     json_loads := fun _ => Raise json_error;
     now_text := "January 05, 2026 at 10:30";
     str_compound := fun _ => EmptyString |}.

(** An upload request with one file. *)
Definition example_file : Routes.FileStorage :=
  {| Routes.filename := "receipt.final.PNG";
     Routes.content_type := "image/png";
     Routes.read := [] |}.

Definition example_files : gmap string Routes.FileStorage := {[ "file" := example_file ]}.

(** An edited record: a numeric id, one phone number, no other key. *)
Definition edited_record : gmap string pyval :=
  {[ "transaction_id" := PInt 42; "phone_numbers" := PList [PStr "03001234567"] ]}.

(** Its rendering in the example world, with the template [JazzCash]. *)
Definition edited_canvas : canvas :=
  match Complete.render extra_key_world edited_record (PStr "JazzCash") with
  | Ok img => img
  | Raise _ =>
      {| cv_width := 0; cv_height := 0; cv_background := Named "none"; cv_ops := [] |}
  end.

(** * Properties *)

(** ** Exceptions and the adapters *)

Lemma bind_Ok_inv {A B} (r : result A) (f : A -> result B) (b : B) :
  r ≫= f = Ok b -> exists a, r = Ok a /\ f a = Ok b.
Proof. destruct r as [a|e]; simpl; intros H; [eauto | discriminate]. Qed.

Lemma try_except_total {A} (body : result A) (handler : exn -> result A) :
  (forall e, exists a, handler e = Ok a) -> exists a, try_except body handler = Ok a.
Proof. intros Hh. destruct body as [a|e]; simpl; eauto. Qed.

(** The vision adapter never raises. *)
Lemma extract_with_gemini_total {image} (w : World image) data mime :
  exists d, extract_with_gemini w data mime = Ok d.
Proof. apply try_except_total. eauto. Qed.

(** When its body raises, the adapter returns the mapping with the one key
    [error]. *)
Lemma extract_with_gemini_raised {image} (w : World image) data mime e :
  extract_with_gemini_try w data mime = Raise e ->
  extract_with_gemini w data mime = Ok {[ "error" := PStr (exn_msg e) ]}.
Proof. unfold extract_with_gemini. intros ->. reflexivity. Qed.

Lemma complete_tesseract_total {image} (w : World image) data :
  exists text, Complete.extract_with_tesseract w data = Ok text.
Proof. apply try_except_total. eauto. Qed.

Lemma single_tesseract_total {image} (w : World image) data :
  exists text, Single.extract_with_tesseract w data = Ok text.
Proof. apply try_except_total. eauto. Qed.

(** ** Image Preprocessor *)

(** In [complete_panel_with_generation.py] the handler decodes the buffer
    again, so a buffer Pillow cannot decode makes the preprocessor raise. *)
Lemma complete_preprocess_undecodable {image} (w : World image) data e :
  Image_open w data = Raise e ->
  Complete.preprocess_image_for_ocr w data = Raise e.
Proof. unfold Complete.preprocess_image_for_ocr. intros ->. simpl. reflexivity. Qed.

(** When the buffer decodes, the preprocessor does not raise: it returns
    the enhanced image, or the decoded original if an enhancement step
    failed. *)
Lemma complete_preprocess_degrades {image} (w : World image) data img :
  Image_open w data = Ok img ->
  Complete.preprocess_image_for_ocr w data =
    Ok (match Complete.enhance_for_ocr w img with
        | Ok enhanced => enhanced
        | Raise _ => img
        end).
Proof.
  unfold Complete.preprocess_image_for_ocr. intros Hopen. rewrite Hopen. simpl.
  destruct (Complete.enhance_for_ocr w img); reflexivity.
Qed.

(** The preprocessor of [single_file_panel.py] has the same handler: when
    OpenCV raises and Pillow cannot decode the buffer either, it raises. *)
Lemma single_preprocess_undecodable {image} (w : World image) data e e' :
  cv2_imdecode w data = Raise e ->
  Image_open w data = Raise e' ->
  Single.preprocess_image_for_ocr w data = Raise e'.
Proof. unfold Single.preprocess_image_for_ocr. intros -> ->. reflexivity. Qed.

(** C4, at the failing input: in the world where no buffer decodes, the
    preprocessor of [complete_panel_with_generation.py] raises on the empty
    buffer instead of returning an image; the exception leaves
    [preprocess_image_for_ocr] and is only caught by its caller
    [extract_with_tesseract], which answers with the empty text. *)
Theorem complete_preprocess_raises :
  Complete.preprocess_image_for_ocr undecodable_world [] = Raise decode_error /\
  Complete.extract_with_tesseract undecodable_world [] = Ok EmptyString /\
  Single.preprocess_image_for_ocr undecodable_world [] = Ok None.
Proof. repeat split; reflexivity. Qed.

(** ** Extraction Orchestrator *)

Section Orchestrator.
Context {image : Type} (w : World image).
Variable tess : list byte -> result string.
Hypothesis tess_total : forall data, exists text, tess data = Ok text.

Lemma gemini_accepted_all_text d :
  gemini_accepted d = true ->
  truthy (get d "all_text") = true /\ truthy (get d "error") = false.
Proof.
  unfold gemini_accepted. intros H.
  apply andb_true_iff in H as [H Ht]. apply andb_true_iff in H as [_ He].
  apply negb_true_iff in He. auto.
Qed.

Lemma upload_accepts data ct d :
  GEMINI_AVAILABLE w = true ->
  extract_with_gemini w data ct = Ok d ->
  gemini_accepted d = true ->
  upload_file_with w tess data ct = Success d "gemini" true.
Proof.
  intros Ha Hg Hacc. unfold upload_file_with, upload_file_body.
  rewrite Ha, Hg. simpl. rewrite Hacc. simpl.
  apply gemini_accepted_all_text in Hacc as [-> _]. reflexivity.
Qed.

Lemma upload_rejects data ct d text :
  GEMINI_AVAILABLE w = true ->
  extract_with_gemini w data ct = Ok d ->
  gemini_accepted d = false ->
  tess data = Ok text ->
  upload_file_with w tess data ct = Success (parse_text_manually text) "tesseract" true.
Proof.
  intros Ha Hg Hacc Ht. unfold upload_file_with, upload_file_body.
  rewrite Ha, Hg. simpl. rewrite Hacc. simpl. rewrite Ht. reflexivity.
Qed.

Lemma upload_unavailable data ct text :
  GEMINI_AVAILABLE w = false ->
  tess data = Ok text ->
  upload_file_with w tess data ct = Success (parse_text_manually text) "tesseract" false.
Proof.
  intros Ha Ht. unfold upload_file_with, upload_file_body.
  rewrite Ha. simpl. rewrite Ht. reflexivity.
Qed.

(** The orchestrator always answers with a success payload, produced by
    one of the two paths. *)
Lemma upload_cases data ct :
  (exists d, GEMINI_AVAILABLE w = true /\ extract_with_gemini w data ct = Ok d /\
     gemini_accepted d = true /\
     upload_file_with w tess data ct = Success d "gemini" true) \/
  (exists text, tess data = Ok text /\
     upload_file_with w tess data ct =
       Success (parse_text_manually text) "tesseract" (GEMINI_AVAILABLE w)).
Proof.
  destruct (tess_total data) as [text Ht].
  destruct (GEMINI_AVAILABLE w) eqn:Ha.
  - destruct (extract_with_gemini_total w data ct) as [d Hg].
    destruct (gemini_accepted d) eqn:Hacc.
    + left. exists d. eauto using upload_accepts.
    + right. exists text. eauto using upload_rejects.
  - right. exists text. eauto using upload_unavailable.
Qed.

End Orchestrator.

(** ** The key set of a parsed record *)

Lemma dom_insert_present (m : gmap string pyval) k v :
  k ∈ dom m -> dom (<[k:=v]> m) = dom m.
Proof.
  intros Hk. rewrite dom_insert_L. apply set_eq. intros x.
  rewrite elem_of_union, elem_of_singleton. split; [intros [->|H]; auto | auto].
Qed.

(** Membership in a concrete finite set, by evaluation. *)
Ltac in_keys := apply (bool_decide_unpack _); vm_compute; exact I.

Lemma initial_data_dom text : dom (initial_data text) = record_keys.
Proof.
  unfold initial_data, record_keys. simpl. rewrite !dom_insert_L, dom_empty_L.
  set_solver.
Qed.

Lemma insert_keeps_keys (m : gmap string pyval) k v :
  k ∈ record_keys -> dom m = record_keys -> dom (<[k:=v]> m) = record_keys.
Proof. intros Hk Hm. rewrite dom_insert_present; [exact Hm | by rewrite Hm]. Qed.

Ltac keep_keys :=
  repeat (apply insert_keeps_keys; [in_keys|]).

Lemma apply_field_dom text data entry :
  entry ∈ patterns -> dom data = record_keys -> dom (apply_field text data entry) = record_keys.
Proof.
  intros Hin Hd. unfold apply_field. destruct entry as [field ps].
  destruct (first_match ps text); [|exact Hd].
  assert (Hf : field ∈ dom data).
  { rewrite Hd. unfold patterns in Hin.
    repeat (apply elem_of_cons in Hin as [Hin|Hin];
            [injection Hin as -> _; in_keys|]).
    inversion Hin. }
  destruct (bool_decide _); rewrite dom_insert_present; auto.
Qed.


Lemma foldl_apply_field_dom text l :
  (forall e, e ∈ l -> e ∈ patterns) ->
  forall data, dom data = record_keys ->
  dom (foldl (apply_field text) data l) = record_keys.
Proof.
  induction l as [|e l IH]; intros Hl data Hd; simpl; [exact Hd|].
  apply IH.
  - intros e' He'. apply Hl. by right.
  - apply apply_field_dom; [apply Hl; by left | exact Hd].
Qed.

Lemma apply_patterns_dom text data :
  dom data = record_keys -> dom (apply_patterns text data) = record_keys.
Proof. apply foldl_apply_field_dom. auto. Qed.

Lemma scan_line_dom lines data i line :
  dom data = record_keys -> dom (scan_line lines data i line) = record_keys.
Proof.
  intros Hd. unfold scan_line.
  repeat match goal with
         | |- context [if ?b then _ else _] => destruct b
         end; keep_keys; exact Hd.
Qed.

Lemma scan_from_dom lines rest : forall i data,
  dom data = record_keys -> dom (scan_from lines i rest data) = record_keys.
Proof.
  induction rest as [|line rest IH]; intros i data Hd; simpl; [exact Hd|].
  apply IH, scan_line_dom, Hd.
Qed.

Lemma detect_method_dom ms text data :
  dom data = record_keys -> dom (detect_method ms text data) = record_keys.
Proof.
  intros Hd. induction ms as [|m ms IH]; simpl; [exact Hd|].
  destruct (contains _ _); [keep_keys; exact Hd | exact IH].
Qed.

(** Every record the Field Parser returns has exactly the fixed keys. *)
Lemma parse_text_manually_dom text : dom (parse_text_manually text) = record_keys.
Proof.
  unfold parse_text_manually, scan_lines.
  apply detect_method_dom, scan_from_dom.
  keep_keys. apply apply_patterns_dom, initial_data_dom.
Qed.

(** ** What the orchestrator returns *)




(** C3, the code against the claim: a reply whose [error] key is present
    with the value null and whose [all_text] is not empty is accepted; the
    result is the vision record, not the text-recognition one. *)
Lemma null_error_key_is_accepted :
  extract_with_gemini null_error_world [] "image/png" = Ok null_error_record /\
  is_Some (null_error_record !! "error") /\
  Complete.upload_file null_error_world [] "image/png"
    = Success null_error_record "gemini" true.
Proof.
  split; [vm_compute; reflexivity|].
  split; [|vm_compute; reflexivity].
  exists PNone. vm_compute. reflexivity.
Qed.

(** C3, as amended: when the body of the vision adapter raises, or the
    mapping it returns has a truthy [error] value or no truthy [all_text],
    the orchestrator answers with the success payload of the
    text-recognition path: the Field Parser's record of the text
    [extract_with_tesseract] returned, tagged [tesseract]. *)
Theorem upload_falls_back {image} (w : World image) data ct :
  (exists e, extract_with_gemini_try w data ct = Raise e) \/
  (exists d, extract_with_gemini w data ct = Ok d /\
     (truthy (get d "error") = true \/ truthy (get d "all_text") = false)) ->
  exists text,
    Complete.extract_with_tesseract w data = Ok text /\
    Complete.upload_file w data ct
      = Success (parse_text_manually text) "tesseract" (GEMINI_AVAILABLE w).
Proof.
  intros H.
  assert (Hrej : exists d, extract_with_gemini w data ct = Ok d /\ gemini_accepted d = false).
  { destruct H as [[e He] | (d & Hd & Hbad)].
    - exists {[ "error" := PStr (exn_msg e) ]}. split.
      + by apply extract_with_gemini_raised.
      + unfold gemini_accepted, get.
        rewrite (lookup_singleton_ne "error" "all_text") by discriminate.
        simpl. apply andb_false_r.
    - exists d. split; [exact Hd|]. unfold gemini_accepted.
      destruct Hbad as [-> | ->]; simpl;
        [apply andb_false_intro1, andb_false_r | apply andb_false_r]. }
  destruct Hrej as (d & Hd & Hacc).
  unfold Complete.upload_file.
  destruct (upload_cases w _ (complete_tesseract_total w) data ct)
    as [(d' & Ha & Hg & Hacc' & Hup') | (text & Ht & Hup')].
  - congruence.
  - exists text. auto.
Qed.

Lemma upload_falls_back_witness :
  exists text,
    Complete.extract_with_tesseract failing_service_world [] = Ok text /\
    Complete.upload_file failing_service_world [] "image/png"
      = Success (parse_text_manually text) "tesseract" true.
Proof.
  apply (upload_falls_back failing_service_world [] "image/png").
  left. exists (other_error "quota exceeded"). reflexivity.
Defined.

(** ** Receipt Synthesizer *)

Lemma drawn_texts_add_op img op :
  Complete.drawn_texts (Complete.add_op img op) =
  (Complete.drawn_texts img ++
    match op with DrawText _ _ t _ _ _ => [t] | _ => [] end)%list.
Proof.
  unfold Complete.drawn_texts, Complete.add_op. simpl.
  rewrite omap_app. destruct op; reflexivity.
Qed.

Lemma gradient_no_text c1 c2 width height :
  omap (fun op => match op with DrawText _ _ t _ _ _ => Some t | _ => None end)
       (Complete.gradient c1 c2 width height) = [].
Proof.
  unfold Complete.gradient. destruct c1 as [[r1 g1] b1], c2 as [[r2 g2] b2].
  induction (seq 0 (Z.to_nat height)) as [|y l IH]; simpl; auto.
Qed.

(** C7: for the record with no keys and any template name, rendering
    succeeds; the function returns the data URL of the PNG encoding of a
    400 by 600 canvas on which the four placeholder strings are drawn. *)
Theorem empty_request_renders {image} (w : World image) (t : string) :
  exists img,
    Complete.render w ∅ (PStr t) = Ok img /\
    Complete.generate_new_screenshot w ∅ (PStr t)
      = Some ("data:image/png;base64," ++ b64encode w (png_encode w img)) /\
    cv_width img = 400%Z /\ cv_height img = 600%Z /\
    Forall (fun s => s ∈ Complete.drawn_texts img)
           ["Transaction Successful"; "Rs. 0.00"; "Receiver Name"; "Sender Name"].
Proof.
  unfold Complete.generate_new_screenshot, Complete.render, get_or.
  rewrite !lookup_empty. simpl.
  destruct (String.eqb _ _); destruct (Complete.load_fonts w) as [[tf xf] lf]; simpl;
    (eexists; split; [reflexivity|]; split; [reflexivity|];
     split; [reflexivity|]; split; [reflexivity|];
     rewrite !drawn_texts_add_op; unfold Complete.drawn_texts at 1; simpl cv_ops;
     rewrite gradient_no_text; simpl;
     repeat constructor; apply list_elem_of_In; simpl; tauto).
Qed.

Lemma draw_text_Ok_inv img xy v fill f a img' :
  Complete.draw_text img xy v fill f a = Ok img' ->
  exists s, v = PStr s /\ img' = Complete.add_op img (DrawText (fst xy) (snd xy) s fill f a).
Proof. destruct v; simpl; intros H; try discriminate. injection H as <-. eauto. Qed.

Lemma maybe_draw_Ok_inv (b : bool) img xy v fill f a img' :
  (if b then Complete.draw_text img xy v fill f a else Ok img) = Ok img' ->
  img' = img \/
  exists s, img' = Complete.add_op img (DrawText (fst xy) (snd xy) s fill f a).
Proof.
  destruct b; intros H.
  - apply draw_text_Ok_inv in H as (s & _ & ->). eauto.
  - injection H as <-. auto.
Qed.

Lemma texts_at_add_op x y img op :
  texts_at x y (Complete.add_op img op) =
  (texts_at x y img ++
    match op with
    | DrawText x' y' t _ _ _ => if ((x =? x') && (y =? y'))%Z then [t] else []
    | _ => []
    end)%list.
Proof.
  unfold texts_at, Complete.add_op. simpl. rewrite omap_app.
  destruct op; simpl; try reflexivity. destruct (_ && _); reflexivity.
Qed.

Lemma gradient_no_text_at x y c1 c2 width height bg :
  texts_at x y {| cv_width := width; cv_height := height; cv_background := bg;
                  cv_ops := Complete.gradient c1 c2 width height |} = [].
Proof.
  unfold texts_at, Complete.gradient. simpl.
  destruct c1 as [[r1 g1] b1], c2 as [[r2 g2] b2].
  induction (seq 0 (Z.to_nat height)) as [|n l IH]; simpl; auto.
Qed.

(** One step back through [render]: the statement that ran, and for a
    [draw.text] the string it was given. *)
Ltac invert_draw H :=
  let s := fresh "s" in let Hs := fresh "Hs" in let Hi := fresh "Hi" in
  apply bind_Ok_inv in H as (? & Hi & H);
  first [ apply draw_text_Ok_inv in Hi as (s & Hs & ->)
        | apply maybe_draw_Ok_inv in Hi as [-> | (s & ->)]
        | idtac ].

(** When rendering succeeds, the value read for a slot is a string and is
    the one string drawn at the slot's position. *)
Lemma render_slot {image} (w : World image) d t img key x y dflt :
  (key, (x, y), dflt) ∈ slots w ->
  Complete.render w d t = Ok img ->
  exists s, get_or d key (PStr dflt) = PStr s /\ texts_at x y img = [s].
Proof.
  intros Hslot H. unfold Complete.render in H.
  apply bind_Ok_inv in H as (tl & Htl & H).
  destruct (if String.eqb tl "jazzcash" then _ else _) as [c1 c2].
  destruct (Complete.load_fonts w) as [[tf xf] lf].
  do 17 (try invert_draw H).
  all: injection H as <-.
  all: unfold slots in Hslot.
  all: repeat (apply elem_of_cons in Hslot as [Hslot|Hslot];
         [injection Hslot as -> -> -> ->;
          rewrite !texts_at_add_op, gradient_no_text_at; simpl; eauto|]).
  all: inversion Hslot.
Qed.

(** A slot whose key is present with the value null makes rendering raise:
    the function returns [None]. *)
Lemma null_slot_fails {image} (w : World image) d t key x y dflt :
  (key, (x, y), dflt) ∈ slots w ->
  d !! key = Some PNone -> Complete.generate_new_screenshot w d t = None.
Proof.
  intros Hslot Hk. unfold Complete.generate_new_screenshot.
  destruct (Complete.render w d t) as [img|e] eqn:Hr; [|reflexivity].
  destruct (render_slot w d t img key x y dflt Hslot Hr) as (s & Hs & _).
  unfold get_or in Hs. rewrite Hk in Hs. discriminate.
Qed.

(** The three cases on concrete records: the amount slot of a record without
    the key, with the empty string, and with null. *)
Example amount_slot_cases :
  (texts_at 200 220 <$> Complete.render extra_key_world ∅ (PStr "jazzcash"))
    = Ok ["Rs. 0.00"] /\
  (texts_at 200 220 <$>
     Complete.render extra_key_world {[ "amount" := PStr "" ]} (PStr "jazzcash"))
    = Ok [""] /\
  Complete.generate_new_screenshot extra_key_world {[ "amount" := PNone ]} (PStr "jazzcash")
    = None /\
  Complete.generate_new_screenshot extra_key_world {[ "date" := PNone ]} (PStr "jazzcash")
    = None.
Proof. repeat split; vm_compute; reflexivity. Qed.

(** ** Strings *)

Lemma starts_with_app p s : starts_with p (p ++ s) = true.
Proof. induction p as [|c p IH]; simpl; [reflexivity|]. by rewrite Ascii.eqb_refl. Qed.

Lemma starts_with_inv p s :
  starts_with p s = true -> exists rest, s = p ++ rest.
Proof.
  revert s. induction p as [|c p IH]; intros s H; simpl in *; [eauto|].
  destruct s as [|c' s]; [discriminate|].
  apply andb_true_iff in H as [Hc Hp]. apply Ascii.eqb_eq in Hc as ->.
  destruct (IH _ Hp) as [rest ->]. eauto.
Qed.

Lemma contains_starts sub s : starts_with sub s = true -> contains sub s = true.
Proof. intros H. destruct s; simpl; rewrite H; reflexivity. Qed.

Lemma contains_app pre sub post : contains sub (pre ++ sub ++ post) = true.
Proof.
  induction pre as [|c pre IH].
  - change ("" ++ sub ++ post) with (sub ++ post).
    apply contains_starts, starts_with_app.
  - change (String c pre ++ sub ++ post) with (String c (pre ++ sub ++ post)).
    simpl. rewrite IH. apply orb_true_r.
Qed.

Lemma contains_inv sub s :
  contains sub s = true -> exists pre post, s = pre ++ sub ++ post.
Proof.
  induction s as [|c s IH]; simpl; intros H.
  - rewrite orb_false_r in H. apply starts_with_inv in H as [rest ->].
    exists "", rest. reflexivity.
  - apply orb_true_iff in H as [H|H].
    + apply starts_with_inv in H as [rest ->]. exists "", rest. reflexivity.
    + destruct (IH H) as (pre & post & ->). exists (String c pre), post. reflexivity.
Qed.

Lemma append_assoc_str (a b c : string) : (a ++ b) ++ c = a ++ (b ++ c).
Proof.
  induction a as [|x a IH]; [reflexivity|].
  change (String x ((a ++ b) ++ c) = String x (a ++ b ++ c)). by rewrite IH.
Qed.

(** A text that contains [a ++ b] contains [b]. *)
Lemma contains_suffix a b s : contains (a ++ b) s = true -> contains b s = true.
Proof.
  intros H. apply contains_inv in H as (pre & post & ->).
  rewrite append_assoc_str, <- (append_assoc_str pre a). apply contains_app.
Qed.

(** ** Field Parser: the loop over the lines *)

(** The status after one line: the line's own keyword, or the status so
    far. *)
Lemma scan_line_status lines data i line :
  scan_line lines data i line !! "status" =
  match line_status line with
  | Some s => Some (PStr s)
  | None => data !! "status"
  end.
Proof.
  unfold scan_line, line_status.
  repeat match goal with
         | |- context [if ?b then _ else _] => destruct b
         end;
  repeat first [ rewrite lookup_insert_eq | rewrite lookup_insert_ne by discriminate ];
  reflexivity.
Qed.

Lemma scan_from_app lines l1 : forall l2 i data,
  scan_from lines i (l1 ++ l2)%list data =
  scan_from lines (i + length l1) l2 (scan_from lines i l1 data).
Proof.
  induction l1 as [|x l1 IH]; intros l2 i data; simpl.
  - by rewrite Nat.add_0_r.
  - rewrite IH. f_equal. lia.
Qed.

(** Lines with neither [failed] nor [pending] leave a status that is
    already [Successful] as it is. *)
Lemma scan_from_stays_successful lines rest : forall i data,
  (forall l, l ∈ rest ->
     contains "failed" (str_lower l) = false /\ contains "pending" (str_lower l) = false) ->
  data !! "status" = Some (PStr "Successful") ->
  scan_from lines i rest data !! "status" = Some (PStr "Successful").
Proof.
  induction rest as [|x rest IH]; intros i data H Hd; simpl; [exact Hd|].
  apply IH; [intros l Hl; apply H; by right|].
  rewrite scan_line_status. unfold line_status.
  destruct (H x) as [-> ->]; [by left|].
  destruct (contains "successful" _); [reflexivity | exact Hd].
Qed.

Lemma detect_method_other ms text data k :
  k <> "payment_method" -> detect_method ms text data !! k = data !! k.
Proof.
  intros Hk. induction ms as [|m ms IH]; simpl; [reflexivity|].
  destruct (contains _ _); [by rewrite lookup_insert_ne | exact IH].
Qed.

(** C8: if some line contains [unsuccessful], case-insensitively, and no
    later line contains [failed] or [pending], the status of the parsed
    record is [Successful]. *)
Theorem unsuccessful_reads_as_successful text (before after : list string) line :
  split_lines text = (before ++ line :: after)%list ->
  contains "unsuccessful" (str_lower line) = true ->
  (forall l, l ∈ after ->
     contains "failed" (str_lower l) = false /\ contains "pending" (str_lower l) = false) ->
  parse_text_manually text !! "status" = Some (PStr "Successful").
Proof.
  intros Hsplit Hun Hafter. unfold parse_text_manually, scan_lines.
  rewrite detect_method_other by discriminate.
  rewrite Hsplit at 2. rewrite scan_from_app. simpl.
  apply scan_from_stays_successful; [exact Hafter|].
  rewrite scan_line_status. unfold line_status.
  by rewrite (contains_suffix "un" "successful" _ Hun).
Qed.

Lemma unsuccessful_reads_as_successful_witness :
  parse_text_manually ("Transaction Unsuccessful" ++ newline ++ "Thank you") !! "status"
    = Some (PStr "Successful").
Proof.
  apply (unsuccessful_reads_as_successful _ [] ["Thank you"] "Transaction Unsuccessful").
  - vm_compute. reflexivity.
  - vm_compute. reflexivity.
  - intros l Hl. apply list_elem_of_singleton in Hl as ->. split; vm_compute; reflexivity.
Defined.

(** ** Field Parser: the fields set by patterns *)

Lemma scan_line_other lines data i line k :
  k <> "sender" -> k <> "receiver" -> k <> "status" ->
  scan_line lines data i line !! k = data !! k.
Proof.
  intros H1 H2 H3. unfold scan_line.
  repeat match goal with
         | |- context [if ?b then _ else _] => destruct b
         end;
  repeat (rewrite lookup_insert_ne by congruence); reflexivity.
Qed.

Lemma scan_from_other lines rest k : forall i data,
  k <> "sender" -> k <> "receiver" -> k <> "status" ->
  scan_from lines i rest data !! k = data !! k.
Proof.
  induction rest as [|x rest IH]; intros i data H1 H2 H3; simpl; [reflexivity|].
  rewrite IH, scan_line_other by assumption. reflexivity.
Qed.

(** The fields set by the pattern loop are not touched afterwards. *)
Lemma parse_pattern_field text k :
  k ∈ ["transaction_id"; "amount"; "date"; "fee"] ->
  parse_text_manually text !! k = apply_patterns text (initial_data text) !! k.
Proof.
  intros Hk. unfold parse_text_manually, scan_lines.
  assert (k <> "payment_method" /\ k <> "sender" /\ k <> "receiver" /\ k <> "status"
          /\ k <> "phone_numbers") as (H1 & H2 & H3 & H4 & H5).
  { repeat (apply elem_of_cons in Hk as [->|Hk]; [repeat split; discriminate|]).
    inversion Hk. }
  rewrite detect_method_other, scan_from_other, lookup_insert_ne by congruence.
  reflexivity.
Qed.

Lemma apply_field_other text data field ps k :
  field <> k -> apply_field text data (field, ps) !! k = data !! k.
Proof.
  intros Hk. unfold apply_field. destruct (first_match ps text); [|reflexivity].
  destruct (bool_decide _); by rewrite lookup_insert_ne.
Qed.

Lemma apply_field_amount text data ps :
  apply_field text data ("amount", ps) !! "amount" =
  match first_match ps text with
  | Some m => Some (PStr ("Rs. " ++ format_group (group1 m)))
  | None => data !! "amount"
  end.
Proof.
  unfold apply_field. destruct (first_match ps text); [|reflexivity].
  rewrite bool_decide_eq_true_2 by apply list_elem_of_here.
  apply lookup_insert_eq.
Qed.

Lemma apply_field_transaction_id text data ps :
  apply_field text data ("transaction_id", ps) !! "transaction_id" =
  match first_match ps text with
  | Some m => Some (group_value (group1 m))
  | None => data !! "transaction_id"
  end.
Proof.
  unfold apply_field. destruct (first_match ps text); [|reflexivity].
  rewrite bool_decide_eq_false_2.
  - apply lookup_insert_eq.
  - intros H. repeat (apply elem_of_cons in H as [H|H]; [discriminate|]). inversion H.
Qed.

Lemma parse_amount text :
  parse_text_manually text !! "amount" =
  Some (match first_match amount_patterns text with
        | Some m => PStr ("Rs. " ++ format_group (group1 m))
        | None => PNone
        end).
Proof.
  rewrite parse_pattern_field by (apply list_elem_of_In; simpl; tauto).
  unfold apply_patterns, patterns. cbn [foldl].
  rewrite !apply_field_other by discriminate.
  rewrite apply_field_amount, apply_field_other by discriminate.
  destruct (first_match amount_patterns text); reflexivity.
Qed.

Lemma parse_transaction_id text :
  parse_text_manually text !! "transaction_id" =
  Some (match first_match transaction_id_patterns text with
        | Some m => group_value (group1 m)
        | None => PNone
        end).
Proof.
  rewrite parse_pattern_field by (apply list_elem_of_In; simpl; tauto).
  unfold apply_patterns, patterns. cbn [foldl].
  rewrite !apply_field_other by discriminate.
  rewrite apply_field_transaction_id.
  destruct (first_match transaction_id_patterns text); reflexivity.
Qed.

(** ** Searching *)

Lemma drop_str_app pre s : drop_str (String.length pre) (pre ++ s) = s.
Proof. induction pre as [|c pre IH]; [reflexivity|]. exact IH. Qed.

Lemma drop_str_S n c s : drop_str (S n) (String c s) = drop_str n s.
Proof. reflexivity. Qed.

(** If no match starts at the first [n] positions, the search is the
    search from position [n]. *)
Lemma re_search_skip r n : forall s,
  (n <= String.length s)%nat ->
  (forall i, (i < n)%nat -> match_at r (drop_str i s) = None) ->
  re_search r s = re_search r (drop_str n s).
Proof.
  induction n as [|n IH]; intros s Hlen Hno; [reflexivity|].
  destruct s as [|c s]; [simpl in Hlen; lia|].
  simpl re_search. assert (H0 := Hno 0%nat ltac:(lia)). simpl in H0. rewrite H0.
  apply IH; [simpl in Hlen; lia|].
  intros i Hi. apply (Hno (S i)). lia.
Qed.

Lemma re_search_here r s m : match_at r s = Some m -> re_search r s = Some m.
Proof. intros H. destruct s; simpl; rewrite H; reflexivity. Qed.

(** ** The matcher, one constructor at a time *)

Lemma In_ends_Eps e s : In e (ends Eps s) <-> e = (None, 0%nat).
Proof. simpl. split; [intros [<-|[]]; reflexivity | auto]. Qed.

Lemma In_ends_Chr e p s :
  In e (ends (Chr p) s) <->
  exists c s', s = String c s' /\ p c = true /\ e = (None, 1%nat).
Proof.
  destruct s as [|c s]; simpl.
  - split; [intros [] | intros (c & s' & H & _); discriminate].
  - destruct (p c) eqn:Hp; simpl.
    + split; [intros [<-|[]]; eauto | intros (c' & s' & _ & _ & ->); auto].
    + split; [intros [] | intros (c' & s' & H & Hp' & _); congruence].
Qed.

Lemma In_ends_Rep e p lo hi s :
  In e (ends (Rep p lo hi) s) <->
  fst e = None /\ (lo <= snd e <= run p hi s)%nat.
Proof.
  cbn [ends]. rewrite <- list_elem_of_In, list_elem_of_fmap.
  split.
  - intros (j & -> & Hj). apply list_elem_of_In in Hj.
    rewrite <- in_rev, in_seq in Hj. simpl. split; [reflexivity|lia].
  - intros [Hf Hr]. exists (snd e). split; [destruct e; simpl in *; congruence|].
    apply list_elem_of_In. rewrite <- in_rev, in_seq. lia.
Qed.

Lemma In_ends_Cat e r1 r2 s :
  In e (ends (Cat r1 r2) s) <->
  exists e1 e2, In e1 (ends r1 s) /\ In e2 (ends r2 (drop_str (snd e1) s)) /\
    e = (or_else (fst e2) (fst e1), (snd e1 + snd e2)%nat).
Proof.
  cbn [ends]. rewrite in_flat_map. split.
  - intros (e1 & H1 & H). apply list_elem_of_In, list_elem_of_fmap in H as (e2 & -> & H2).
    apply list_elem_of_In in H2. eauto.
  - intros (e1 & e2 & H1 & H2 & ->). exists e1. split; [exact H1|].
    apply list_elem_of_In, list_elem_of_fmap. exists e2. split; [reflexivity|].
    by apply list_elem_of_In.
Qed.

Lemma In_ends_Grp e r s :
  In e (ends (Grp r) s) <->
  exists e', In e' (ends r s) /\ e = (Some (take_str (snd e') s), snd e').
Proof.
  cbn [ends]. rewrite <- list_elem_of_In, list_elem_of_fmap.
  split; intros (e' & H1 & H2); exists e'; [apply list_elem_of_In in H2|apply list_elem_of_In in H1]; auto.
Qed.

Lemma match_at_Some r s m :
  match_at r s = Some m ->
  exists e, In e (ends r s) /\ m = {| group0 := take_str (snd e) s; group1 := fst e |}.
Proof.
  unfold match_at. destruct (ends r s) as [|e l]; [discriminate|].
  intros H. injection H as <-. exists e. split; [left|]; reflexivity.
Qed.

Lemma match_at_is_Some r s e : In e (ends r s) -> is_Some (match_at r s).
Proof. unfold match_at. destruct (ends r s); [intros []|eauto]. Qed.

(** ** Runs *)

Lemma run_all_le_length p s : (run_all p s <= String.length s)%nat.
Proof. induction s as [|c s IH]; simpl; [lia|]. destruct (p c); simpl; lia. Qed.

Lemma length_take_str_le n s :
  (String.length (take_str n s) <= n)%nat /\
  (String.length (take_str n s) <= String.length s)%nat.
Proof.
  revert s. induction n as [|n IH]; intros s; [simpl; lia|].
  destruct s as [|c s]; simpl; [lia|]. specialize (IH s). lia.
Qed.

Lemma run_le_length p hi s : (run p hi s <= String.length s)%nat.
Proof.
  destruct hi as [h|]; simpl; [|apply run_all_le_length].
  pose proof (run_all_le_length p (take_str h s)).
  pose proof (length_take_str_le h s). lia.
Qed.

Lemma run_le_bound p h s : (run p (Some h) s <= h)%nat.
Proof.
  simpl. pose proof (run_all_le_length p (take_str h s)).
  pose proof (length_take_str_le h s). lia.
Qed.

Lemma run_all_get p s i :
  (i < run_all p s)%nat -> exists c, String.get i s = Some c /\ p c = true.
Proof.
  revert i. induction s as [|c s IH]; intros i; simpl; [lia|].
  destruct (p c) eqn:Hp; [|lia]. intros Hi.
  destruct i as [|i]; [eauto|]. apply IH. lia.
Qed.

Lemma get_take_str n s i c :
  String.get i (take_str n s) = Some c -> String.get i s = Some c.
Proof.
  revert s i. induction n as [|n IH]; intros s i; [discriminate|].
  destruct s as [|x s]; [discriminate|]. simpl.
  destruct i as [|i]; [auto | apply IH].
Qed.

Lemma run_get p hi s i :
  (i < run p hi s)%nat -> exists c, String.get i s = Some c /\ p c = true.
Proof.
  destruct hi as [h|]; simpl; intros Hi; [|by apply run_all_get].
  apply run_all_get in Hi as (c & Hc & Hp). eauto using get_take_str.
Qed.

Ltac inv_ends :=
  repeat match goal with
  | H : In _ (ends Eps _) |- _ => apply In_ends_Eps in H; subst
  | H : In _ (ends (Chr _) _) |- _ =>
      let c := fresh "c" in let s := fresh "s" in let Hp := fresh "Hp" in
      apply In_ends_Chr in H as (c & s & -> & Hp & ->)
  | H : In ?e (ends (Rep _ _ _) _) |- _ =>
      let Hf := fresh "Hf" in let Hr := fresh "Hr" in
      apply In_ends_Rep in H as [Hf Hr]; destruct e; cbn [fst snd] in Hf, Hr; subst
  | H : In _ (ends (Cat _ _) _) |- _ =>
      let e1 := fresh "e" in let e2 := fresh "e" in
      let H1 := fresh "H" in let H2 := fresh "H" in
      apply In_ends_Cat in H as (e1 & e2 & H1 & H2 & ->)
  | H : In _ (ends (Grp _) _) |- _ =>
      let e1 := fresh "e" in let H1 := fresh "H" in
      apply In_ends_Grp in H as (e1 & H1 & ->)
  | H : In _ (ends _ (drop_str _ _)) |- _ => progress (cbn [drop_str fst snd Nat.add] in H)
  end.

Lemma eleven_fixed_span : fixed_span eleven_pattern 11.
Proof.
  intros s m Hm. apply match_at_Some in Hm as (e & He & ->).
  unfold eleven_pattern, exactly in He. inv_ends.
  assert (n = 11%nat) by (pose proof (run_le_bound is_digit 11 s); lia). subst n.
  simpl. repeat split.
  - pose proof (run_le_length is_digit (Some 11%nat) s). lia.
  - intros i Hi. apply (run_get is_digit (Some 11%nat)). lia.
Qed.

Ltac pin_run :=
  match goal with
  | H : (?lo <= ?n <= run ?p (Some ?h) ?t)%nat |- _ =>
      assert (n = h) by (pose proof (run_le_bound p h t); lia); subst n;
      pose proof (run_le_length p (Some h) t)
  end.

Lemma plus92_fixed_span : fixed_span plus92_pattern 13.
Proof.
  intros s m Hm. apply match_at_Some in Hm as (e & He & ->).
  unfold plus92_pattern, exactly, pat in He. cbn [foldr str_lit] in He. inv_ends.
  cbn [drop_str fst snd Nat.add or_else] in Hr. pin_run.
  apply Ascii.eqb_eq in Hp0 as <-, Hp1 as <-.
  simpl. repeat split; [lia|].
  intros i Hi. destruct i as [|[|[|i]]]; [lia|simpl; eauto..|].
  simpl. apply (run_get is_digit (Some 10%nat)). lia.
Qed.

Lemma mobile_fixed_span : fixed_span mobile_pattern 11.
Proof.
  intros s m Hm. apply match_at_Some in Hm as (e & He & ->).
  unfold mobile_pattern, exactly, pat in He. cbn [foldr str_lit] in He. inv_ends.
  cbn [drop_str fst snd Nat.add or_else] in Hr. pin_run.
  apply Ascii.eqb_eq in Hp0 as <-.
  simpl. repeat split; [lia|].
  intros i Hi. destruct i as [|[|i]]; [lia|simpl; eauto|].
  simpl. apply (run_get is_digit (Some 9%nat)). lia.
Qed.

(** A match of the mobile pattern starts with the character 0. *)
Lemma mobile_match_starts s m :
  match_at mobile_pattern s = Some m ->
  exists rest, group1 m = Some (String "0" rest).
Proof.
  intros Hm. apply match_at_Some in Hm as (e & He & ->).
  unfold mobile_pattern, exactly, pat in He. cbn [foldr str_lit] in He. inv_ends.
  apply Ascii.eqb_eq in Hp as <-. simpl. eauto.
Qed.

(** ** findall *)

Lemma findall_from_elem r s : forall k g,
  g ∈ findall_from r k s ->
  exists t m, match_at r t = Some m /\ g = default EmptyString (group1 m).
Proof.
  induction s as [|c s IH]; intros k g Hg; simpl in Hg.
  - destruct k; [|inversion Hg].
    destruct (match_at r "") as [m|] eqn:Hm; [|inversion Hg].
    apply list_elem_of_singleton in Hg as ->. eauto.
  - destruct k as [|k]; [|eauto].
    destruct (match_at r (String c s)) as [m|] eqn:Hm; [|eauto].
    apply elem_of_cons in Hg as [->|Hg]; eauto.
Qed.

(** A search that finds nothing means no suffix has a match. *)
Lemma findall_nil r s :
  findall_from r 0 s = [] -> forall i, match_at r (drop_str i s) = None.
Proof.
  induction s as [|c s IH]; simpl; intros H i.
  - destruct (match_at r "") eqn:Hm; [discriminate|]. by destruct i.
  - destruct (match_at r (String c s)) eqn:Hm; [discriminate|].
    destruct i as [|i]; [exact Hm | apply IH, H].
Qed.

Lemma get_app_boundary pre c rest :
  String.get (String.length pre) (pre ++ String c rest) = Some c.
Proof. induction pre as [|x pre IH]; [reflexivity | exact IH]. Qed.

Lemma length_take_str n s : (n <= String.length s)%nat -> String.length (take_str n s) = n.
Proof.
  revert s. induction n as [|n IH]; intros s Hn; [reflexivity|].
  destruct s as [|c s]; simpl in *; [lia|]. rewrite IH; lia.
Qed.

(** Matches of a fixed-span pattern cannot run across a character that is
    not a digit: the scan of [pre ++ rest] reaches the start of [rest]. *)
Lemma findall_sync r n c rest :
  fixed_span r n -> is_digit c = false ->
  forall pre k, (k <= String.length pre)%nat ->
  exists l, findall_from r k (pre ++ String c rest)
            = (l ++ findall_from r 0 (String c rest))%list.
Proof.
  intros Hr Hc. induction pre as [|x pre IH]; intros k Hk.
  - simpl in Hk. replace k with 0%nat by lia. exists []. reflexivity.
  - change (String x pre ++ String c rest) with (String x (pre ++ String c rest)).
    destruct k as [|k].
    + cbn [findall_from].
      destruct (match_at r (String x (pre ++ String c rest))) as [m|] eqn:Hm.
      * destruct (Hr _ _ Hm) as (Hlen & Hg0 & Hg1 & Hdig).
        assert (Hn : (n <= String.length (String x pre))%nat).
        { destruct (Nat.le_gt_cases n (String.length (String x pre))) as [|Hgt]; [done|].
          destruct (Hdig (String.length (String x pre))) as (c' & Hget & Hd); [simpl in Hgt |- *; lia|].
          change (String x (pre ++ String c rest)) with (String x pre ++ String c rest) in Hget.
          rewrite get_app_boundary in Hget. congruence. }
        destruct (IH (String.length (group0 m) - 1)%nat) as [l Hl].
        { rewrite Hg0, length_take_str by exact Hlen. simpl in Hn. lia. }
        rewrite Hl. eexists (_ :: l). reflexivity.
      * apply (IH 0%nat). lia.
    + cbn [findall_from]. apply IH. simpl in Hk. lia.
Qed.

(** ** Phone numbers *)

Lemma phone_numbers_elem g text :
  g ∈ phone_numbers text <->
  g ∈ re_findall plus92_pattern text \/ g ∈ re_findall mobile_pattern text \/
  g ∈ re_findall eleven_pattern text.
Proof.
  unfold phone_numbers, phone_patterns. cbn [foldl].
  rewrite !elem_of_union, !elem_of_list_to_set, elem_of_empty. tauto.
Qed.

Lemma plus92_at_number post :
  match_at plus92_pattern ("+923001234567" ++ post)
  = Some {| group0 := "+923001234567"; group1 := Some "+923001234567" |}.
Proof. vm_compute. reflexivity. Qed.

Lemma eleven_at_plus post : match_at eleven_pattern ("+923001234567" ++ post) = None.
Proof. vm_compute. reflexivity. Qed.

Lemma eleven_after_plus post :
  match_at eleven_pattern ("923001234567" ++ post)
  = Some {| group0 := "92300123456"; group1 := Some "92300123456" |}.
Proof. vm_compute. reflexivity. Qed.

Lemma mobile_at_number post :
  match_at mobile_pattern ("03001234567" ++ post)
  = Some {| group0 := "03001234567"; group1 := Some "03001234567" |}.
Proof. vm_compute. reflexivity. Qed.

(** The international form is found by the first pattern, and its first
    eleven digits by the third. *)
Lemma plus92_number_found pre post :
  "+923001234567" ∈ re_findall plus92_pattern (pre ++ "+923001234567" ++ post) /\
  "92300123456" ∈ re_findall eleven_pattern (pre ++ "+923001234567" ++ post).
Proof.
  unfold re_findall.
  change ("+923001234567" ++ post) with (String "+" ("923001234567" ++ post)).
  split.
  - destruct (findall_sync plus92_pattern 13 "+" ("923001234567" ++ post)
                plus92_fixed_span eq_refl pre 0%nat ltac:(lia)) as [l ->].
    apply elem_of_app. right. cbn [findall_from].
    change (String "+" ("923001234567" ++ post)) with ("+923001234567" ++ post).
    rewrite plus92_at_number. apply list_elem_of_here.
  - destruct (findall_sync eleven_pattern 11 "+" ("923001234567" ++ post)
                eleven_fixed_span eq_refl pre 0%nat ltac:(lia)) as [l ->].
    apply elem_of_app. right. cbn [findall_from].
    change (String "+" ("923001234567" ++ post)) with ("+923001234567" ++ post).
    rewrite eleven_at_plus.
    change ("923001234567" ++ post) with (String "9" ("23001234567" ++ post)).
    cbn [findall_from].
    change (String "9" ("23001234567" ++ post)) with ("923001234567" ++ post).
    rewrite eleven_after_plus. apply list_elem_of_here.
Qed.

(** Where the text contains the local form, the second pattern finds a
    number, and every number it finds starts with 0. *)
Lemma mobile_number_found pre post :
  exists rest, String "0" rest ∈ re_findall mobile_pattern (pre ++ "03001234567" ++ post).
Proof.
  unfold re_findall.
  destruct (findall_from mobile_pattern 0 (pre ++ "03001234567" ++ post)) as [|g l] eqn:Hf.
  - apply findall_nil with (i := String.length pre) in Hf.
    rewrite drop_str_app, mobile_at_number in Hf. discriminate.
  - assert (Hg : g ∈ findall_from mobile_pattern 0 (pre ++ "03001234567" ++ post))
      by (rewrite Hf; apply list_elem_of_here).
    apply findall_from_elem in Hg as (t & m & Hm & ->).
    apply mobile_match_starts in Hm as [rest ->]. exists rest. apply list_elem_of_here.
Qed.

Lemma parse_phone_numbers text :
  parse_text_manually text !! "phone_numbers"
  = Some (PList (PStr <$> elements (phone_numbers text))).
Proof.
  unfold parse_text_manually, scan_lines.
  rewrite detect_method_other, scan_from_other by discriminate.
  apply lookup_insert_eq.
Qed.

(** C2, the code against the claim: the text made of the two numbers, one
    per line, contains both forms and yields three entries, the third being
    the first eleven digits of the international form. *)
Lemma two_forms_give_three_numbers :
  let text := "+923001234567" ++ newline ++ "03001234567" in
  contains "+923001234567" text = true /\
  contains "03001234567" text = true /\
  phone_numbers text = {[ "+923001234567"; "03001234567"; "92300123456" ]} /\
  size (phone_numbers text) = 3%nat.
Proof. repeat split; vm_compute; reflexivity. Qed.

(** C2, as amended: for every text that contains both forms, the collection
    stored under [phone_numbers] has no duplicates and at least three
    entries: the international form, its first eleven digits, and a number
    starting with 0. *)
Theorem phone_numbers_of_both_forms text :
  contains "+923001234567" text = true ->
  contains "03001234567" text = true ->
  exists l,
    parse_text_manually text !! "phone_numbers" = Some (PList (PStr <$> l)) /\
    NoDup l /\ (3 <= length l)%nat /\
    "+923001234567" ∈ l /\ "92300123456" ∈ l /\
    exists rest, String "0" rest ∈ l.
Proof.
  intros H1 H2. exists (elements (phone_numbers text)).
  apply contains_inv in H1 as (pre1 & post1 & E1).
  apply contains_inv in H2 as (pre2 & post2 & E2).
  destruct (plus92_number_found pre1 post1) as [Ha Hb]. rewrite <- E1 in Ha, Hb.
  destruct (mobile_number_found pre2 post2) as [rest Hc]. rewrite <- E2 in Hc.
  assert (Ha' : "+923001234567" ∈ phone_numbers text) by (apply phone_numbers_elem; auto).
  assert (Hb' : "92300123456" ∈ phone_numbers text) by (apply phone_numbers_elem; auto).
  assert (Hc' : String "0" rest ∈ phone_numbers text) by (apply phone_numbers_elem; auto).
  split; [apply parse_phone_numbers|].
  split; [apply NoDup_elements|].
  split.
  - change (length (elements (phone_numbers text))) with (size (phone_numbers text)).
    assert (Hsub : ({[ "+923001234567" ]} ∪ ({[ "92300123456" ]} ∪ {[ String "0" rest ]})
                      : gset string) ⊆ phone_numbers text).
    { intros x Hx. rewrite !elem_of_union, !elem_of_singleton in Hx.
      destruct Hx as [->|[->| ->]]; assumption. }
    apply subseteq_size in Hsub.
    rewrite size_union in Hsub.
    + rewrite size_union, !size_singleton in Hsub; [lia|].
      intros x Hx Hy. apply elem_of_singleton in Hx, Hy. congruence.
    + intros x Hx Hy. apply elem_of_singleton in Hx.
      rewrite elem_of_union, !elem_of_singleton in Hy. destruct Hy; congruence.
  - split; [by apply elem_of_elements|].
    split; [by apply elem_of_elements|].
    exists rest. by apply elem_of_elements.
Qed.

Lemma phone_numbers_of_both_forms_witness :
  exists l,
    parse_text_manually ("+923001234567" ++ newline ++ "03001234567") !! "phone_numbers"
      = Some (PList (PStr <$> l)) /\
    NoDup l /\ (3 <= length l)%nat /\
    "+923001234567" ∈ l /\ "92300123456" ∈ l /\
    exists rest, String "0" rest ∈ l.
Proof.
  apply (phone_numbers_of_both_forms ("+923001234567" ++ newline ++ "03001234567"));
    vm_compute; reflexivity.
Defined.

(** ** amount *)






(** ** transaction_id *)

Lemma re_search_Some_inv r s m :
  re_search r s = Some m -> exists i, match_at r (drop_str i s) = Some m.
Proof.
  induction s as [|c s IH]; simpl.
  - destruct (match_at r "") eqn:Hm; [|discriminate].
    intros H. exists 0%nat. simpl. congruence.
  - destruct (match_at r (String c s)) eqn:Hm.
    + intros H. exists 0%nat. simpl. congruence.
    + intros H. destruct (IH H) as [i Hi]. exists (S i). exact Hi.
Qed.

Lemma re_search_is_Some r s i :
  is_Some (match_at r (drop_str i s)) -> is_Some (re_search r s).
Proof.
  revert i. induction s as [|c s IH]; intros i H.
  - destruct i; simpl in *; destruct (match_at r ""); auto.
  - simpl. destruct (match_at r (String c s)) eqn:Hm; [eauto|].
    destruct i as [|i]; simpl in H; [rewrite Hm in H; destruct H; discriminate|eauto].
Qed.

(** A character that matches the letter e case-insensitively is
    alphanumeric and is neither a colon nor white space. *)
Lemma lit_i_e c :
  lit_i "e" c = true -> is_ascii_alnum c = true /\ colon_space c = false.
Proof.
  destruct c as [[] [] [] [] [] [] [] []]; vm_compute; intros H;
    first [discriminate | split; reflexivity].
Qed.

Lemma In_ends_Chr_intro (p : ascii -> bool) c s :
  p c = true -> In (None, 1%nat) (ends (Chr p) (String c s)).
Proof. intros H. apply In_ends_Chr. eauto. Qed.

Lemma In_ends_Rep_intro p lo hi s :
  (lo <= run p hi s)%nat -> In (None, lo) (ends (Rep p lo hi) s).
Proof. intros H. apply In_ends_Rep. simpl. split; [reflexivity|lia]. Qed.

(** Builds a way to match from the shortest choice at every repetition. *)
Ltac build_ends :=
  lazymatch goal with
  | |- In _ (ends Eps _) => apply In_ends_Eps; reflexivity
  | |- In _ (ends (Chr _) (String _ _)) => apply In_ends_Chr_intro; assumption
  | |- In _ (ends (Rep _ _ _) _) => apply In_ends_Rep_intro
  | |- In _ (ends (Cat _ _) _) =>
      apply In_ends_Cat; eexists _, _;
      split; [build_ends | split; [cbn [drop_str fst snd Nat.add]; build_ends | reflexivity]]
  | |- In _ (ends (Grp _) _) =>
      apply In_ends_Grp; eexists; split; [build_ends | reflexivity]
  end.

(** Wherever the Reference pattern matches, the Ref pattern matches. *)
Lemma reference_match_is_ref_match t :
  is_Some (match_at reference_pattern t) -> is_Some (match_at ref_pattern t).
Proof.
  intros [m Hm]. apply match_at_Some in Hm as (e & He & _).
  unfold reference_pattern, pat in He. cbn [foldr str_i] in He. inv_ends.
  match goal with
  | H : lit_i "e" ?x = true |- context [String _ (String _ (String _ (String ?x _)))] =>
      destruct (lit_i_e x H) as [Halnum Hcs]
  end.
  eapply match_at_is_Some. unfold ref_pattern, alnum_group, many, many1, pat.
  cbn [foldr str_i]. build_ends.
  - lia.
  - unfold run. cbn [run_all]. rewrite Halnum. lia.
Qed.

Lemma reference_search_is_ref_search text :
  re_search ref_pattern text = None -> re_search reference_pattern text = None.
Proof.
  intros Href. destruct (re_search reference_pattern text) as [m|] eqn:Hm; [|reflexivity].
  apply re_search_Some_inv in Hm as [i Hi].
  assert (Hs : is_Some (re_search ref_pattern text)).
  { apply (re_search_is_Some _ _ i), reference_match_is_ref_match. eauto. }
  rewrite Href in Hs. destruct Hs; discriminate.
Qed.

(** The fourth pattern never decides the field. *)
Lemma reference_pattern_never_fires text :
  first_match transaction_id_patterns text
  = first_match [tid_pattern; transaction_id_pattern; ref_pattern] text.
Proof.
  unfold transaction_id_patterns. cbn [first_match].
  destruct (re_search tid_pattern text); [reflexivity|].
  destruct (re_search transaction_id_pattern text); [reflexivity|].
  destruct (re_search ref_pattern text) eqn:Href; [reflexivity|].
  by rewrite reference_search_is_ref_search.
Qed.

Lemma ref_pattern_at_reference post :
  match_at ref_pattern ("Reference: ABC123" ++ post)
  = Some {| group0 := "Reference"; group1 := Some "erence" |}.
Proof. vm_compute. reflexivity. Qed.

(** C9, the code against the claim: the text contains [Reference: ABC123]
    and has no [TID] or [Transaction ID] match, but an earlier [Ref:] line
    is matched first. *)
Lemma earlier_ref_wins :
  let text := "Ref: 7" ++ newline ++ "Reference: ABC123" in
  contains "Reference: ABC123" text = true /\
  re_search tid_pattern text = None /\
  re_search transaction_id_pattern text = None /\
  parse_text_manually text !! "transaction_id" = Some (PStr "7").
Proof. repeat split; vm_compute; reflexivity. Qed.

(** C9, as amended: in a text with no match of the first two patterns, if
    no match of the [Ref] pattern starts before an occurrence of
    [Reference: ABC123], the stored transaction id is [erence]; and for
    every text the fourth pattern is never the one that decides. *)
Theorem reference_is_read_as_erence pre post :
  re_search tid_pattern (pre ++ "Reference: ABC123" ++ post) = None ->
  re_search transaction_id_pattern (pre ++ "Reference: ABC123" ++ post) = None ->
  (forall i, (i < String.length pre)%nat ->
     match_at ref_pattern (drop_str i (pre ++ "Reference: ABC123" ++ post)) = None) ->
  parse_text_manually (pre ++ "Reference: ABC123" ++ post) !! "transaction_id"
    = Some (PStr "erence") /\
  (forall text, first_match transaction_id_patterns text
                = first_match [tid_pattern; transaction_id_pattern; ref_pattern] text).
Proof.
  intros Htid Htrans Hleft. split; [|apply reference_pattern_never_fires].
  rewrite parse_transaction_id. unfold transaction_id_patterns. cbn [first_match].
  rewrite Htid, Htrans.
  rewrite (re_search_skip ref_pattern (String.length pre)), drop_str_app.
  - rewrite (re_search_here _ _ _ (ref_pattern_at_reference post)). reflexivity.
  - clear. induction pre as [|c pre IH]; simpl; lia.
  - exact Hleft.
Qed.

Lemma reference_is_read_as_erence_witness :
  parse_text_manually ("" ++ "Reference: ABC123" ++ "") !! "transaction_id"
    = Some (PStr "erence") /\
  (forall text, first_match transaction_id_patterns text
                = first_match [tid_pattern; transaction_id_pattern; ref_pattern] text).
Proof.
  apply (reference_is_read_as_erence "" "").
  - vm_compute. reflexivity.
  - vm_compute. reflexivity.
  - intros i Hi. simpl in Hi. lia.
Defined.

(** ** Field Parser: what a parsed record always holds *)

Lemma apply_patterns_other text data k :
  k ∉ ["transaction_id"; "amount"; "date"; "fee"] ->
  apply_patterns text data !! k = data !! k.
Proof.
  intros Hk. unfold apply_patterns, patterns. cbn [foldl].
  rewrite !apply_field_other; [reflexivity|..];
    intros <-; apply Hk; apply list_elem_of_In; simpl; tauto.
Qed.

(** X1: every record the Field Parser returns has exactly the fixed
    keys, carries the input text unchanged under [all_text], and leaves
    [reference], [bank_info] and [location] at null: no statement of the
    parser writes them. *)
Theorem parsed_record_shape text :
  dom (parse_text_manually text) = record_keys /\
  parse_text_manually text !! "all_text" = Some (PStr text) /\
  parse_text_manually text !! "reference" = Some PNone /\
  parse_text_manually text !! "bank_info" = Some PNone /\
  parse_text_manually text !! "location" = Some PNone.
Proof.
  split; [apply parse_text_manually_dom|].
  unfold parse_text_manually, scan_lines.
  repeat split;
    (rewrite detect_method_other, scan_from_other, lookup_insert_ne by discriminate;
     rewrite apply_patterns_other
       by (intros H; repeat (apply elem_of_cons in H as [H|H]; [discriminate|]); inversion H);
     reflexivity).
Qed.

(** ** status: the last line with a keyword decides *)

Lemma scan_from_status_kept lines rest : forall i data,
  (forall l, l ∈ rest -> line_status l = None) ->
  scan_from lines i rest data !! "status" = data !! "status".
Proof.
  induction rest as [|x rest IH]; intros i data H; simpl; [reflexivity|].
  rewrite IH by (intros l Hl; apply H; by right).
  rewrite scan_line_status, (H x) by (by left). reflexivity.
Qed.

Lemma parse_status text :
  parse_text_manually text !! "status"
  = scan_from (split_lines text) 0 (split_lines text)
      (<["phone_numbers" := PList (PStr <$> elements (phone_numbers text))]>
         (apply_patterns text (initial_data text))) !! "status".
Proof. unfold parse_text_manually, scan_lines. by rewrite detect_method_other. Qed.

Lemma last_cons_some {A} (x : A) l : last (x :: l) = Some (default x (last l)).
Proof. revert x. induction l as [|y l IH]; intros x; [reflexivity|].
  change (last (x :: y :: l)) with (last (y :: l)). rewrite IH. simpl.
  destruct l; reflexivity.
Qed.

Lemma scan_from_status lines rest : forall i data,
  scan_from lines i rest data !! "status"
  = match last (omap line_status rest) with
    | Some s => Some (PStr s)
    | None => data !! "status"
    end.
Proof.
  induction rest as [|x rest IH]; intros i data; [reflexivity|].
  cbn [scan_from]. rewrite IH, scan_line_status.
  change (omap line_status (x :: rest))
    with (match line_status x with
          | Some y => y :: omap line_status rest
          | None => omap line_status rest
          end).
  destruct (line_status x) as [s|]; [rewrite last_cons_some|];
    destruct (last (omap line_status rest)); reflexivity.
Qed.

(** X2: the status is decided by the last line that contains a status
    keyword, and inside that line [successful] goes before [failed] and
    [failed] before [pending]; with no such line the status stays null. *)
Theorem status_is_last_keyword text :
  parse_text_manually text !! "status"
  = Some (from_option PStr PNone (last (omap line_status (split_lines text)))).
Proof.
  rewrite parse_status, scan_from_status.
  destruct (last _); [reflexivity|].
  rewrite lookup_insert_ne, apply_patterns_other by
    (try discriminate; intros H; repeat (apply elem_of_cons in H as [H|H]; [discriminate|]); inversion H).
  reflexivity.
Qed.

(** ** sender and receiver *)

Lemma run_all_app_all p d b :
  all_chars p d = true -> run_all p (d ++ b) = (String.length d + run_all p b)%nat.
Proof.
  induction d as [|c d IH]; intros H; [reflexivity|].
  simpl in H. apply andb_true_iff in H as [Hc Hd].
  change (String c d ++ b) with (String c (d ++ b)). simpl. by rewrite Hc, IH.
Qed.

(** A text with ten digits in a row has a digit run. *)
Lemma digit_run_found a d b :
  String.length d = 10%nat -> all_chars is_digit d = true ->
  is_Some (re_search digit_run (a ++ d ++ b)).
Proof.
  intros Hlen Hd. apply (re_search_is_Some _ _ (String.length a)).
  rewrite drop_str_app. eapply match_at_is_Some.
  unfold digit_run, at_least. apply In_ends_Rep_intro.
  unfold run. rewrite run_all_app_all by exact Hd. lia.
Qed.

Lemma scan_line_names lines data i line k :
  k = "sender" \/ k = "receiver" ->
  ((length lines <= i + 1)%nat \/
   is_Some (re_search digit_run (strip (default EmptyString (lines !! (i + 1)%nat))))) ->
  scan_line lines data i line !! k = data !! k.
Proof.
  intros Hk Hskip. unfold scan_line.
  assert (Hb : (i + 1 <? length lines)%nat = false \/
               bool_decide (is_Some (re_search digit_run
                 (strip (default EmptyString (lines !! (i + 1)%nat))))) = true).
  { destruct Hskip as [H|H]; [left; apply Nat.ltb_ge; lia | right; by apply bool_decide_eq_true_2]. }
  destruct Hb as [-> | ->]; rewrite ?andb_false_r; cbn [negb];
    repeat match goal with
           | |- context [if ?b then _ else _] => destruct b
           end;
    destruct Hk as [-> | ->];
    repeat (rewrite lookup_insert_ne by discriminate); reflexivity.
Qed.

(** X3: a candidate line with ten digits in a row is never stored as a
    name, whatever the trigger line is. *)
Theorem number_line_is_no_name lines data i line next a d b :
  lines !! (i + 1)%nat = Some next ->
  strip next = a ++ d ++ b ->
  String.length d = 10%nat -> all_chars is_digit d = true ->
  scan_line lines data i line !! "sender" = data !! "sender" /\
  scan_line lines data i line !! "receiver" = data !! "receiver".
Proof.
  intros Hnext Hstrip Hlen Hd.
  split; apply scan_line_names; auto; right; rewrite Hnext; simpl; rewrite Hstrip;
    by apply digit_run_found.
Qed.

Lemma number_line_is_no_name_witness :
  scan_line ["From"; " 0300 1234567890 "] ∅ 0 "From" !! "sender" = (∅ : gmap string pyval) !! "sender" /\
  scan_line ["From"; " 0300 1234567890 "] ∅ 0 "From" !! "receiver" = (∅ : gmap string pyval) !! "receiver".
Proof.
  apply (number_line_is_no_name ["From"; " 0300 1234567890 "] ∅ 0 "From"
           " 0300 1234567890 " "0300 " "1234567890" ""); reflexivity.
Defined.

Lemma parse_names text k :
  k = "sender" \/ k = "receiver" ->
  parse_text_manually text !! k
  = scan_from (split_lines text) 0 (split_lines text)
      (<["phone_numbers" := PList (PStr <$> elements (phone_numbers text))]>
         (apply_patterns text (initial_data text))) !! k.
Proof.
  intros Hk. unfold parse_text_manually, scan_lines.
  rewrite detect_method_other; [reflexivity|]. destruct Hk as [-> | ->]; discriminate.
Qed.

(** X4: when the text ends with a newline, the line before it is the
    last trigger line that can fire, and what it stores is the empty string. *)
Theorem trailing_newline_empties_names text (before : list string) line :
  split_lines text = (before ++ [line; EmptyString])%list ->
  (contains "from" (str_lower line) = true ->
     parse_text_manually text !! "sender" = Some (PStr "")) /\
  (contains "to" (str_lower line) = true -> contains "total" (str_lower line) = false ->
     parse_text_manually text !! "receiver" = Some (PStr "")).
Proof.
  intros Hsplit.
  assert (Hlen : length (split_lines text) = (length before + 2)%nat)
    by (rewrite Hsplit, length_app; simpl; lia).
  assert (Hnext : split_lines text !! (length before + 1)%nat = Some EmptyString).
  { rewrite Hsplit, lookup_app_r by lia.
    replace (length before + 1 - length before)%nat with 1%nat by lia. reflexivity. }
  assert (Hin : (length before + 1 <? length (split_lines text))%nat = true)
    by (apply Nat.ltb_lt; lia).
  split.
  - intros Hfrom. rewrite parse_names by auto.
    rewrite Hsplit at 2. rewrite scan_from_app, Nat.add_0_l. cbn [scan_from].
    rewrite scan_line_names by (auto; left; simpl; lia).
    unfold scan_line at 1. rewrite Hfrom, Hin, Hnext. simpl.
    repeat match goal with
           | |- context [if ?b then _ else _] => destruct b
           end;
      repeat (rewrite lookup_insert_ne by discriminate); apply lookup_insert_eq.
  - intros Hto Htotal. rewrite parse_names by auto.
    rewrite Hsplit at 2. rewrite scan_from_app, Nat.add_0_l. cbn [scan_from].
    rewrite scan_line_names by (auto; left; simpl; lia).
    unfold scan_line at 1. rewrite Hto, Htotal, Hin, Hnext. simpl.
    repeat match goal with
           | |- context [if ?b then _ else _] => destruct b
           end;
      repeat (rewrite lookup_insert_ne by discriminate); apply lookup_insert_eq.
Qed.

Lemma trailing_newline_empties_names_witness :
  (contains "from" (str_lower "Bilal Store") = true ->
     parse_text_manually ("To" ++ newline ++ "Bilal Store" ++ newline) !! "sender"
       = Some (PStr "")) /\
  (contains "to" (str_lower "Bilal Store") = true ->
   contains "total" (str_lower "Bilal Store") = false ->
     parse_text_manually ("To" ++ newline ++ "Bilal Store" ++ newline) !! "receiver"
       = Some (PStr "")).
Proof.
  apply (trailing_newline_empties_names _ ["To"] "Bilal Store"). vm_compute. reflexivity.
Defined.

(** ** receiver: the last line with a candidate decides *)

(** The receiver after one line: the line's own candidate, or the receiver
    so far. *)
Lemma scan_line_receiver lines data i line :
  scan_line lines data i line !! "receiver" =
  match receiver_candidate lines i line with
  | Some p => Some (PStr p)
  | None => data !! "receiver"
  end.
Proof.
  unfold scan_line, receiver_candidate.
  repeat match goal with
         | |- context [if ?b then _ else _] => destruct b
         end;
  repeat first [ rewrite lookup_insert_eq | rewrite lookup_insert_ne by discriminate ];
  reflexivity.
Qed.

Lemma receiver_candidate_total lines i line :
  contains "total" (str_lower line) = true -> receiver_candidate lines i line = None.
Proof.
  intros H. unfold receiver_candidate. rewrite H.
  by rewrite andb_false_r.
Qed.

Lemma receiver_candidate_last lines i line :
  (length lines <= i + 1)%nat -> receiver_candidate lines i line = None.
Proof.
  intros H. unfold receiver_candidate.
  replace (i + 1 <? length lines)%nat with false by (symmetry; apply Nat.ltb_ge; lia).
  by rewrite andb_false_r.
Qed.

Lemma receiver_candidate_fires lines i line next :
  contains "to" (str_lower line) = true ->
  contains "total" (str_lower line) = false ->
  lines !! (i + 1)%nat = Some next ->
  re_search digit_run (strip next) = None ->
  receiver_candidate lines i line = Some (strip next).
Proof.
  intros Hto Htotal Hnext Hdig. unfold receiver_candidate.
  rewrite Hto, Htotal, Hnext. cbn [negb andb default from_option id].
  replace (i + 1 <? length lines)%nat with true
    by (symmetry; apply Nat.ltb_lt; by apply lookup_lt_Some in Hnext).
  rewrite Hdig. rewrite bool_decide_eq_false_2 by (intros [m Hm]; discriminate).
  reflexivity.
Qed.

(** Lines without a candidate leave the receiver as it is. *)
Lemma scan_from_receiver_kept lines rest : forall i data,
  (forall j line, rest !! j = Some line -> receiver_candidate lines (i + j) line = None) ->
  scan_from lines i rest data !! "receiver" = data !! "receiver".
Proof.
  induction rest as [|x rest IH]; intros i data H; simpl; [reflexivity|].
  rewrite IH.
  - rewrite scan_line_receiver.
    specialize (H 0%nat x eq_refl). rewrite Nat.add_0_r in H. by rewrite H.
  - intros j line Hj. specialize (H (S j) line Hj).
    by replace (S i + j)%nat with (i + S j)%nat by lia.
Qed.

Lemma parse_receiver_initial text :
  (<["phone_numbers" := PList (PStr <$> elements (phone_numbers text))]>
     (apply_patterns text (initial_data text))) !! "receiver" = Some PNone.
Proof.
  rewrite lookup_insert_ne by discriminate.
  rewrite apply_patterns_other; [reflexivity|].
  intros H. repeat (apply elem_of_cons in H as [H|H]; [discriminate|]). inversion H.
Qed.

(** C6: a line that contains [total], such as [Total Amount To Pay], never
    sets the receiver: the loop body leaves it as it was, and a text whose
    lines with [to] all contain [total] has no receiver.  A line [To]
    followed by the line [Bilal Store] sets the receiver to [Bilal Store] at
    that step, and the parser returns it when [Bilal Store] is the last
    line.  When one more line follows, the line [Bilal Store], which
    contains [to], sets the receiver again: the parser returns that last
    line, stripped, unless it has ten digits in a row. *)
Theorem receiver_line_heuristic text (before : list string) :
  (forall lines data i line,
     contains "total" (str_lower line) = true ->
     scan_line lines data i line !! "receiver" = data !! "receiver") /\
  ((forall line, line ∈ split_lines text ->
      contains "to" (str_lower line) = true -> contains "total" (str_lower line) = true) ->
   parse_text_manually text !! "receiver" = Some PNone) /\
  (forall (after : list string) data,
     scan_line (before ++ "To" :: "Bilal Store" :: after)%list data (length before) "To"
       !! "receiver" = Some (PStr "Bilal Store")) /\
  (split_lines text = (before ++ ["To"; "Bilal Store"])%list ->
   parse_text_manually text !! "receiver" = Some (PStr "Bilal Store")) /\
  (forall next,
     split_lines text = (before ++ ["To"; "Bilal Store"; next])%list ->
     re_search digit_run (strip next) = None ->
     parse_text_manually text !! "receiver" = Some (PStr (strip next))).
Proof.
  assert (Hto : forall (after : list string),
    receiver_candidate (before ++ "To" :: "Bilal Store" :: after)%list (length before) "To"
    = Some "Bilal Store").
  { intros after.
    apply (receiver_candidate_fires _ _ "To" "Bilal Store"); try reflexivity.
    rewrite lookup_app_r by lia.
    by replace (length before + 1 - length before)%nat with 1%nat by lia. }
  split; [|split; [|split; [|split]]].
  - intros lines data i line Htotal.
    by rewrite scan_line_receiver, receiver_candidate_total.
  - intros Hall. rewrite parse_names by auto.
    rewrite scan_from_receiver_kept; [apply parse_receiver_initial|].
    intros j line Hj. unfold receiver_candidate.
    destruct (contains "to" (str_lower line)) eqn:Hc; [|reflexivity].
    rewrite (Hall line) by (eauto using list_elem_of_lookup_2). reflexivity.
  - intros after data. by rewrite scan_line_receiver, Hto.
  - intros Hsplit. rewrite parse_names by auto.
    rewrite Hsplit at 2. rewrite scan_from_app, Nat.add_0_l. cbn [scan_from].
    rewrite Hsplit. rewrite !scan_line_receiver.
    rewrite receiver_candidate_last by (rewrite length_app; simpl; lia).
    by rewrite (Hto []).
  - intros next Hsplit Hdig. rewrite parse_names by auto.
    rewrite Hsplit at 2. rewrite scan_from_app, Nat.add_0_l. cbn [scan_from].
    rewrite Hsplit. rewrite !scan_line_receiver.
    rewrite receiver_candidate_last by (rewrite length_app; simpl; lia).
    rewrite (receiver_candidate_fires _ _ "Bilal Store" next); try reflexivity; [|exact Hdig].
    rewrite lookup_app_r by lia.
    by replace (S (length before) + 1 - length before)%nat with 2%nat by lia.
Qed.

Lemma receiver_line_heuristic_witness :
  parse_text_manually ("Total Amount To Pay" ++ newline ++ "Bilal Shop") !! "receiver"
    = Some PNone /\
  parse_text_manually ("Paid" ++ newline ++ "To" ++ newline ++ "Bilal Store") !! "receiver"
    = Some (PStr "Bilal Store") /\
  parse_text_manually
    ("Paid" ++ newline ++ "To" ++ newline ++ "Bilal Store" ++ newline ++ " Rs. 500 ")
    !! "receiver" = Some (PStr "Rs. 500").
Proof.
  split; [|split].
  - apply (proj1 (proj2 (receiver_line_heuristic
                           ("Total Amount To Pay" ++ newline ++ "Bilal Shop") []))).
    intros line Hl Hto.
    repeat (apply elem_of_cons in Hl as [->|Hl]; [vm_compute in Hto |- *; congruence|]).
    inversion Hl.
  - apply (proj1 (proj2 (proj2 (proj2 (receiver_line_heuristic
             ("Paid" ++ newline ++ "To" ++ newline ++ "Bilal Store") ["Paid"]))))).
    reflexivity.
  - apply (proj2 (proj2 (proj2 (proj2 (receiver_line_heuristic
             ("Paid" ++ newline ++ "To" ++ newline ++ "Bilal Store" ++ newline ++ " Rs. 500 ")
             ["Paid"])))) " Rs. 500 "); reflexivity.
Defined.

(** C6, the code against the claim: the line [To] is followed by the line
    [Bilal Store], but [Bilal Store] contains [to] and is followed by a line
    in turn (any further line, or the empty last piece of a text that ends
    with a newline), and that line is what the parser returns as the
    receiver. *)
Lemma store_line_is_a_trigger :
  parse_text_manually ("To" ++ newline ++ "Bilal Store" ++ newline ++ "Rs. 500") !! "receiver"
    = Some (PStr "Rs. 500") /\
  parse_text_manually ("To" ++ newline ++ "Bilal Store" ++ newline) !! "receiver"
    = Some (PStr "") /\
  contains "to" (str_lower "Bilal Store") = true.
Proof. repeat split; vm_compute; reflexivity. Qed.

(** ** payment_method *)

Lemma parse_payment_method text :
  parse_text_manually text !! "payment_method"
  = detect_method methods text
      (scan_lines (split_lines text)
         (<["phone_numbers" := PList (PStr <$> elements (phone_numbers text))]>
            (apply_patterns text (initial_data text)))) !! "payment_method".
Proof. reflexivity. Qed.

Lemma detect_method_first (before after : list string) m text data :
  (forall x, x ∈ before -> contains x (str_lower text) = false) ->
  contains m (str_lower text) = true ->
  detect_method (before ++ m :: after) text data !! "payment_method"
  = Some (PStr (title m)).
Proof.
  intros Hb Hm. induction before as [|x before IH]; simpl.
  - rewrite Hm. apply lookup_insert_eq.
  - rewrite (Hb x) by (by left). apply IH. intros y Hy. apply Hb. by right.
Qed.

Lemma detect_method_none ms text data :
  (forall x, x ∈ ms -> contains x (str_lower text) = false) ->
  detect_method ms text data = data.
Proof.
  intros H. induction ms as [|x ms IH]; simpl; [reflexivity|].
  rewrite (H x) by (by left). apply IH. intros y Hy. apply H. by right.
Qed.

(** X5: the vocabulary is tried in its own order, not in the order of
    the text: the first term of the list found anywhere in the lower-cased
    text is stored, title-cased; with no term found the field stays null. *)
Theorem payment_method_by_vocabulary_order text :
  (forall (before after : list string) m,
     methods = (before ++ m :: after)%list ->
     (forall x, x ∈ before -> contains x (str_lower text) = false) ->
     contains m (str_lower text) = true ->
     parse_text_manually text !! "payment_method" = Some (PStr (title m))) /\
  ((forall x, x ∈ methods -> contains x (str_lower text) = false) ->
     parse_text_manually text !! "payment_method" = Some PNone).
Proof.
  split.
  - intros before after m Hsplit Hb Hm. rewrite parse_payment_method, Hsplit.
    by apply detect_method_first.
  - intros Hnone. rewrite parse_payment_method, detect_method_none by exact Hnone.
    unfold scan_lines.
    rewrite scan_from_other, lookup_insert_ne by discriminate.
    rewrite apply_patterns_other
      by (intros H; repeat (apply elem_of_cons in H as [H|H]; [discriminate|]); inversion H).
    reflexivity.
Qed.

Lemma payment_method_by_vocabulary_order_witness :
  parse_text_manually "Sent from my bank account to an EasyPaisa wallet" !! "payment_method"
  = Some (PStr "Easypaisa").
Proof.
  apply (proj1 (payment_method_by_vocabulary_order _) ["jazzcash"] ["ubl"; "hbl"; "bank"; "wallet"] "easypaisa").
  - reflexivity.
  - intros x Hx. apply list_elem_of_singleton in Hx as ->. vm_compute. reflexivity.
  - vm_compute. reflexivity.
Defined.

(** ** phone_numbers: what can be stored *)

Lemma take_drop_str n s : take_str n s ++ drop_str n s = s.
Proof.
  revert s. induction n as [|n IH]; intros s; [reflexivity|].
  destruct s as [|c s]; [reflexivity|].
  change (String c (take_str n s ++ drop_str n s) = String c s). by rewrite IH.
Qed.

Lemma contains_take_drop n i s : contains (take_str n (drop_str i s)) s = true.
Proof.
  rewrite <- (take_drop_str i s) at 2.
  rewrite <- (take_drop_str n (drop_str i s)) at 2.
  apply contains_app.
Qed.

Lemma findall_from_suffix r s : forall k g,
  g ∈ findall_from r k s ->
  exists i m, match_at r (drop_str i s) = Some m /\ g = default EmptyString (group1 m).
Proof.
  induction s as [|c s IH]; intros k g Hg; simpl in Hg.
  - destruct k; [|inversion Hg].
    destruct (match_at r "") as [m|] eqn:Hm; [|inversion Hg].
    apply list_elem_of_singleton in Hg as ->. exists 0%nat, m. auto.
  - assert (Hrec : forall k', g ∈ findall_from r k' s ->
              exists i m, match_at r (drop_str i (String c s)) = Some m /\
                          g = default EmptyString (group1 m)).
    { intros k' H. destruct (IH _ _ H) as (i & m & Hm & ->). exists (S i), m. auto. }
    destruct k as [|k]; [|eauto].
    destruct (match_at r (String c s)) as [m|] eqn:Hm; [|eauto].
    apply elem_of_cons in Hg as [->|Hg]; [|eauto]. exists 0%nat, m. auto.
Qed.

Lemma run_all_full p t : run_all p t = String.length t -> all_chars p t = true.
Proof.
  induction t as [|c t IH]; simpl; [reflexivity|].
  destruct (p c); [|discriminate]. intros H. apply IH. lia.
Qed.

(** A bounded run that reaches its bound: the first [h] characters exist
    and all satisfy [p]. *)
Lemma run_reaches_bound p h s :
  (h <= run p (Some h) s)%nat ->
  String.length (take_str h s) = h /\ all_chars p (take_str h s) = true.
Proof.
  unfold run. intros H.
  pose proof (run_all_le_length p (take_str h s)).
  pose proof (length_take_str_le h s).
  split; [lia|]. apply run_all_full. lia.
Qed.

(** The three shapes a stored number can have. *)

Lemma take_str_cons n c s : take_str (S n) (String c s) = String c (take_str n s).
Proof. reflexivity. Qed.

Lemma phone_pattern_shape r s m :
  r ∈ phone_patterns -> match_at r s = Some m ->
  exists n, group1 m = Some (take_str n s) /\ phone_shape (take_str n s).
Proof.
  intros Hr Hm. apply match_at_Some in Hm as (e & He & ->).
  unfold phone_patterns in Hr.
  apply elem_of_cons in Hr as [->|Hr]; [|apply elem_of_cons in Hr as [->|Hr];
    [|apply list_elem_of_singleton in Hr as ->]].
  - unfold plus92_pattern, exactly, pat in He. cbn [foldr str_lit] in He. inv_ends.
    cbn [drop_str fst snd Nat.add or_else] in Hr.
    pin_run. destruct (run_reaches_bound is_digit 10 _ (proj2 Hr)) as [Hlen Hall].
    apply Ascii.eqb_eq in Hp as <-, Hp0 as <-, Hp1 as <-.
    exists 13%nat. split; [reflexivity|]. left. eexists. split; [reflexivity|]. auto.
  - unfold mobile_pattern, exactly, pat in He. cbn [foldr str_lit] in He. inv_ends.
    cbn [drop_str fst snd Nat.add or_else] in Hr.
    pin_run. destruct (run_reaches_bound is_digit 9 _ (proj2 Hr)) as [Hlen Hall].
    apply Ascii.eqb_eq in Hp as <-, Hp0 as <-.
    exists 11%nat. split; [reflexivity|]. right.
    rewrite !take_str_cons.
    match goal with H : String.length ?t = 9%nat |- _ => generalize dependent t end.
    intros t Hlen Hall. simpl. rewrite Hlen, Hall. auto.
  - unfold eleven_pattern, exactly in He. inv_ends.
    pin_run. destruct (run_reaches_bound is_digit 11 _ (proj2 Hr)) as [Hlen Hall].
    exists 11%nat. split; [reflexivity|]. right. auto.
Qed.

(** X6: every stored phone number has one of the two shapes and is a
    piece of the text. *)
Theorem phone_numbers_come_from_text text :
  exists l,
    parse_text_manually text !! "phone_numbers" = Some (PList (PStr <$> l)) /\
    forall g, g ∈ l -> phone_shape g /\ contains g text = true.
Proof.
  exists (elements (phone_numbers text)). split; [apply parse_phone_numbers|].
  intros g Hg. apply elem_of_elements in Hg.
  assert (Hfind : exists r, r ∈ phone_patterns /\ g ∈ re_findall r text).
  { apply phone_numbers_elem in Hg as [H|[H|H]]; eexists; (split; [|exact H]);
      unfold phone_patterns; repeat first [by left | right]. }
  destruct Hfind as (r & Hr & Hin).
  apply findall_from_suffix in Hin as (i & m & Hm & ->).
  destruct (phone_pattern_shape r _ m Hr Hm) as (n & -> & Hshape).
  split; [exact Hshape | apply contains_take_drop].
Qed.

(** ** fee and amount *)

Lemma apply_field_fee text data ps :
  apply_field text data ("fee", ps) !! "fee" =
  match first_match ps text with
  | Some m => Some (PStr ("Rs. " ++ format_group (group1 m)))
  | None => data !! "fee"
  end.
Proof.
  unfold apply_field. destruct (first_match ps text); [|reflexivity].
  rewrite bool_decide_eq_true_2 by (right; left).
  apply lookup_insert_eq.
Qed.

Lemma parse_fee text :
  parse_text_manually text !! "fee" =
  Some (match first_match fee_patterns text with
        | Some m => PStr ("Rs. " ++ format_group (group1 m))
        | None => PNone
        end).
Proof.
  rewrite parse_pattern_field by (apply list_elem_of_In; simpl; tauto).
  unfold apply_patterns, patterns. cbn [foldl].
  rewrite apply_field_fee, !apply_field_other by discriminate.
  destruct (first_match fee_patterns text); reflexivity.
Qed.

Lemma drop_str_drop_str a b s : drop_str a (drop_str b s) = drop_str (b + a) s.
Proof.
  revert s. induction b as [|b IH]; intros s; [reflexivity|].
  destruct s as [|c s]; simpl; [by destruct a | apply IH].
Qed.

(** After its label and separators, a fee pattern is the [Rs] pattern. *)
Lemma labelled_rs_match label t :
  is_Some (match_at (pat ([str_i label; many colon_space] ++ rs_prefix ++ [number_group])) t) ->
  exists i, is_Some (match_at rs_pattern (drop_str i t)).
Proof.
  intros [m Hm]. apply match_at_Some in Hm as (e & He & _).
  unfold pat in He. cbn [foldr app] in He.
  apply In_ends_Cat in He as (e1 & e2 & _ & He & _).
  apply In_ends_Cat in He as (e3 & e4 & _ & He & _).
  rewrite drop_str_drop_str in He.
  exists (snd e1 + snd e3)%nat. eapply match_at_is_Some. exact He.
Qed.

Lemma first_match_Some_inv ps text m :
  first_match ps text = Some m -> exists p, p ∈ ps /\ re_search p text = Some m.
Proof.
  induction ps as [|p ps IH]; simpl; [discriminate|].
  destruct (re_search p text) eqn:Hp.
  - intros H. injection H as <-. exists p. split; [by left | exact Hp].
  - intros H. destruct (IH H) as (q & Hq & Hm). exists q. split; [by right | exact Hm].
Qed.

(** X7: wherever a fee is read, an amount is read too. *)
Theorem fee_implies_amount text f :
  parse_text_manually text !! "fee" = Some (PStr f) ->
  exists a, parse_text_manually text !! "amount" = Some (PStr a).
Proof.
  rewrite parse_fee, parse_amount.
  destruct (first_match fee_patterns text) as [m|] eqn:Hfee; [|discriminate]. intros _.
  apply first_match_Some_inv in Hfee as (p & Hp & Hm).
  apply re_search_Some_inv in Hm as [i Hi].
  assert (Hrs : exists j, is_Some (match_at rs_pattern (drop_str j (drop_str i text)))).
  { unfold fee_patterns in Hp.
    apply elem_of_cons in Hp as [->|Hp]; [|apply list_elem_of_singleton in Hp as ->];
      eapply labelled_rs_match; eauto. }
  destruct Hrs as [j Hj]. rewrite drop_str_drop_str in Hj.
  apply re_search_is_Some in Hj as [m' Hm'].
  unfold amount_patterns. cbn [first_match]. rewrite Hm'. eauto.
Qed.

Lemma fee_implies_amount_witness :
  exists a, parse_text_manually ("Fee: Rs. 15.00" ++ newline ++ "Total 500") !! "amount"
            = Some (PStr a).
Proof.
  apply (fee_implies_amount _ "Rs. 15.00"). vm_compute. reflexivity.
Defined.

(** ** The first way the matcher finds *)

Lemma head_rev_seq lo n : (lo <= n)%nat -> head (rev (seq lo (S n - lo))) = Some n.
Proof.
  intros H. replace (S n - lo)%nat with (S (n - lo)) by lia.
  rewrite seq_S, rev_app_distr. simpl. f_equal. lia.
Qed.

Lemma head_ends_Rep p lo hi s :
  (lo <= run p hi s)%nat -> head (ends (Rep p lo hi) s) = Some (None, run p hi s).
Proof.
  intros H. cbn [ends].
  destruct (rev (seq lo (S (run p hi s) - lo))) as [|x l] eqn:E;
    pose proof (head_rev_seq lo _ H) as Hh; rewrite E in Hh; [discriminate|].
  injection Hh as ->. reflexivity.
Qed.

Lemma head_ends_Cat r1 r2 s e1 e2 :
  head (ends r1 s) = Some e1 ->
  head (ends r2 (drop_str (snd e1) s)) = Some e2 ->
  head (ends (Cat r1 r2) s) = Some (or_else (fst e2) (fst e1), (snd e1 + snd e2)%nat).
Proof.
  intros H1 H2. cbn [ends].
  destruct (ends r1 s) as [|x l1]; [discriminate|]. injection H1 as ->.
  cbn [flat_map].
  destruct (ends r2 (drop_str (snd e1) s)) as [|y l2]; [discriminate|]. injection H2 as ->.
  reflexivity.
Qed.

Lemma head_ends_Grp r s e :
  head (ends r s) = Some e ->
  head (ends (Grp r) s) = Some (Some (take_str (snd e) s), snd e).
Proof. intros H. cbn [ends]. destruct (ends r s); [discriminate|]. by injection H as ->. Qed.

Lemma head_ends_Chr (p : ascii -> bool) c s :
  p c = true -> head (ends (Chr p) (String c s)) = Some (None, 1%nat).
Proof. intros H. simpl. by rewrite H. Qed.

Lemma match_at_head r s e :
  head (ends r s) = Some e ->
  match_at r s = Some {| group0 := take_str (snd e) s; group1 := fst e |}.
Proof. unfold match_at. destruct (ends r s); [discriminate|]. by intros [= ->]. Qed.

(** ** Runs over appended texts *)

Lemma run_all_stop p d c b :
  all_chars p d = true -> p c = false -> run_all p (d ++ String c b) = String.length d.
Proof. intros Hd Hc. rewrite run_all_app_all by exact Hd. simpl. rewrite Hc. lia. Qed.

Lemma run_all_whole p d : all_chars p d = true -> run_all p d = String.length d.
Proof.
  intros H. induction d as [|c d IH]; [reflexivity|].
  simpl in *. apply andb_true_iff in H as [-> H]. by rewrite IH.
Qed.

Lemma all_chars_app p a b : all_chars p (a ++ b) = all_chars p a && all_chars p b.
Proof.
  induction a as [|c a IH]; [reflexivity|].
  change (String c a ++ b) with (String c (a ++ b)). simpl. by rewrite IH, andb_assoc.
Qed.

Lemma all_chars_weaken (p q : ascii -> bool) s :
  (forall c, p c = true -> q c = true) -> all_chars p s = true -> all_chars q s = true.
Proof.
  intros Hpq. induction s as [|c s IH]; [reflexivity|]. simpl.
  intros H. apply andb_true_iff in H as [Hc Hs]. by rewrite (Hpq c Hc), IH.
Qed.

Lemma length_append_str a b : String.length (a ++ b) = (String.length a + String.length b)%nat.
Proof. induction a as [|c a IH]; [reflexivity|]. simpl. change (S (String.length (a ++ b)) = S (String.length a + String.length b)). by rewrite IH. Qed.

Lemma take_str_all s : take_str (String.length s) s = s.
Proof. induction s as [|c s IH]; [reflexivity|]. simpl. by rewrite IH. Qed.

Lemma drop_str_all s : drop_str (String.length s) s = EmptyString.
Proof. induction s as [|c s IH]; [reflexivity|]. exact IH. Qed.

Lemma append_nil_r_str s : s ++ "" = s.
Proof. induction s as [|c s IH]; [reflexivity|]. change (String c (s ++ "") = String c s). by rewrite IH. Qed.

(** ** Re-reading a stored amount *)

Lemma num_comma_facts c :
  num_comma c = true -> is_space c = false.
Proof. destruct c as [[] [] [] [] [] [] [] []]; vm_compute; intros H; first [discriminate | reflexivity]. Qed.

Lemma is_digit_num_comma c : is_digit c = true -> num_comma c = true.
Proof. unfold num_comma. intros ->. reflexivity. Qed.

(** The numeric group, tried on a numeric text, takes all of it at once. *)
Lemma number_group_whole cap :
  numeric_text cap ->
  head (ends number_group cap) = Some (Some cap, String.length cap).
Proof.
  intros (c1 & c2 & c3 & -> & Hne & H1 & H2 & H3).
  unfold number_group, pat, many1, maybe, many. cbn [foldr].
  destruct H2 as [-> | ->].
  - (* no dot: the first repetition takes everything *)
    change ("" ++ c3) with c3.
    assert (Hall : all_chars num_comma (c1 ++ c3) = true).
    { rewrite all_chars_app, H1. simpl. eapply all_chars_weaken; [apply is_digit_num_comma|exact H3]. }
    set (cap := c1 ++ c3) in *.
    assert (Hrun : run num_comma None cap = String.length cap) by (apply run_all_whole, Hall).
    assert (Hpos : (1 <= String.length cap)%nat).
    { subst cap. rewrite length_append_str. destruct c1; [congruence|simpl; lia]. }
    erewrite head_ends_Grp; [|
      eapply head_ends_Cat; [apply head_ends_Rep; lia|
      eapply head_ends_Cat; [apply head_ends_Rep; lia|
      eapply head_ends_Cat; [apply head_ends_Rep; lia| reflexivity]]]].
    cbn [fst snd]. rewrite Hrun, drop_str_all. cbn [drop_str run run_all take_str].
    rewrite !Nat.add_0_r, take_str_all. reflexivity.
  - (* a dot: digits and commas, the dot, digits *)
    change ("." ++ c3) with (String "." c3).
    assert (Hrun1 : run num_comma None (c1 ++ String "." c3) = String.length c1)
      by (apply run_all_stop; [exact H1 | reflexivity]).
    assert (Hpos : (1 <= String.length c1)%nat) by (destruct c1; [congruence|simpl; lia]).
    erewrite head_ends_Grp; [|
      eapply head_ends_Cat; [apply head_ends_Rep; lia|
      eapply head_ends_Cat; [apply head_ends_Rep; lia|
      eapply head_ends_Cat; [apply head_ends_Rep; lia| reflexivity]]]].
    cbn [fst snd]. rewrite Hrun1, drop_str_app.
    change (run (lit ".") (Some 1%nat) (String "." c3)) with 1%nat.
    cbn [drop_str]. change (run is_digit None c3) with (run_all is_digit c3).
    rewrite !(run_all_whole _ _ H3).
    replace (String.length c1 + (1 + (String.length c3 + 0)))%nat
      with (String.length (c1 ++ String "." c3))
      by (rewrite length_append_str; simpl; lia).
    rewrite take_str_all. reflexivity.
Qed.

Lemma numeric_text_starts cap :
  numeric_text cap -> run_all is_space cap = 0%nat.
Proof.
  intros (c1 & c2 & c3 & -> & Hne & H1 & _).
  destruct c1 as [|c c1]; [congruence|]. simpl in H1. apply andb_true_iff in H1 as [Hc _].
  change (String c c1 ++ c2 ++ c3) with (String c (c1 ++ c2 ++ c3)). simpl.
  by rewrite (num_comma_facts c Hc).
Qed.

Lemma head_ends_Cat_at r1 r2 s g1 n1 g2 n2 :
  head (ends r1 s) = Some (g1, n1) ->
  head (ends r2 (drop_str n1 s)) = Some (g2, n2) ->
  head (ends (Cat r1 r2) s) = Some (or_else g2 g1, (n1 + n2)%nat).
Proof. intros H1 H2. apply (head_ends_Cat r1 r2 s (g1, n1) (g2, n2) H1 H2). Qed.

Lemma head_ends_Rep_at p lo hi s n :
  run p hi s = n -> (lo <= n)%nat ->
  head (ends (Rep p lo hi) s) = Some (None, n).
Proof. intros <- H. by apply head_ends_Rep. Qed.

Lemma rs_pattern_on_stored cap :
  numeric_text cap ->
  match_at rs_pattern ("Rs. " ++ cap)
  = Some {| group0 := "Rs. " ++ cap; group1 := Some cap |}.
Proof.
  intros Hcap.
  change ("Rs. " ++ cap) with (String "R" (String "s" (String "." (String " " cap)))).
  unfold rs_pattern, rs_prefix, pat, maybe, many. cbn [foldr app].
  erewrite match_at_head.
  2:{ eapply (head_ends_Cat_at _ _ _ None 2); [vm_compute; reflexivity|]. cbn [drop_str].
      eapply (head_ends_Cat_at _ _ _ None 1); [apply head_ends_Rep_at; [reflexivity|lia]|].
      cbn [drop_str].
      eapply (head_ends_Cat_at _ _ _ None 1).
      { apply head_ends_Rep_at; [|lia]. unfold run. cbn [run_all].
        change (is_space " ") with true. cbv iota.
        by rewrite (numeric_text_starts _ Hcap). }
      cbn [drop_str].
      eapply head_ends_Cat_at; [apply (number_group_whole _ Hcap) | reflexivity]. }
  cbn [fst snd or_else Nat.add]. rewrite Nat.add_0_r.
  cbn [take_str]. rewrite take_str_all. reflexivity.
Qed.

Lemma take_str_add a b : forall s,
  take_str (a + b) s = take_str a s ++ take_str b (drop_str a s).
Proof.
  induction a as [|a IH]; intros s; [reflexivity|].
  destruct s as [|c s]; [by destruct b|].
  simpl. change (String c (take_str a s) ++ take_str b (drop_str a s))
    with (String c (take_str a s ++ take_str b (drop_str a s))).
  by rewrite IH.
Qed.

Lemma run_all_prefix p : forall n s,
  (n <= run_all p s)%nat ->
  String.length (take_str n s) = n /\ all_chars p (take_str n s) = true.
Proof.
  induction n as [|n IH]; intros s H; [by split|].
  destruct s as [|c s]; simpl in H; [lia|].
  destruct (p c) eqn:Hp; [|lia].
  destruct (IH s ltac:(lia)) as [Hl Ha]. simpl. rewrite Hp, Hl, Ha. by split.
Qed.

Lemma optional_dot n s :
  (n <= run (lit ".") (Some 1%nat) s)%nat ->
  take_str n s = EmptyString \/ take_str n s = ".".
Proof.
  intros H. pose proof (run_le_bound (lit ".") 1 s).
  destruct n as [|[|n]]; [by left| |exfalso; lia].
  destruct s as [|c s]; [simpl in H; lia|]. unfold run in H. cbn [run_all take_str] in H.
  destruct (lit "." c) eqn:Hc; [|lia].
  apply Ascii.eqb_eq in Hc as <-. by right.
Qed.

(** Whatever the numeric group captures is a numeric text. *)
Lemma number_group_shape u e :
  In e (ends number_group u) ->
  exists cap, fst e = Some cap /\ numeric_text cap.
Proof.
  unfold number_group, pat, many1, maybe, many. cbn [foldr]. intros He. inv_ends.
  cbn [fst snd or_else]. eexists. split; [reflexivity|].
  rewrite Nat.add_0_r, !take_str_add.
  match goal with
  | H1 : (1 <= ?a <= run num_comma None u)%nat,
    H2 : (0 <= ?b <= run (lit ".") (Some 1%nat) _)%nat,
    H3 : (0 <= ?c <= run is_digit None _)%nat |- _ =>
      destruct (run_all_prefix num_comma a u (proj2 H1)) as [Hl1 Ha1];
      pose proof (optional_dot b _ (proj2 H2)) as Hdot;
      destruct (run_all_prefix is_digit c _ (proj2 H3)) as [Hl3 Ha3]
  end.
  eexists _, _, _. split; [reflexivity|].
  split; [|split; [exact Ha1|split; [exact Hdot|exact Ha3]]].
  intros Hnil. rewrite Hnil in Hl1. simpl in Hl1. lia.
Qed.

(** Every amount pattern ends with the numeric group. *)
Lemma amount_pattern_shape r s m :
  r ∈ amount_patterns -> match_at r s = Some m ->
  exists cap, group1 m = Some cap /\ numeric_text cap.
Proof.
  intros Hr Hm. apply match_at_Some in Hm as (e & He & ->).
  unfold amount_patterns in Hr.
  apply elem_of_cons in Hr as [->|Hr]; [|apply elem_of_cons in Hr as [->|Hr];
    [|apply list_elem_of_singleton in Hr as ->]].
  - unfold rs_pattern, rs_prefix, pat, maybe, many in He. cbn [foldr app str_i] in He.
    inv_ends.
    match goal with H : In _ (ends number_group _) |- _ =>
      apply number_group_shape in H as (cap & Hcap & Hnum) end.
    exists cap. cbn [fst snd or_else group1]. rewrite Hcap. by split.
  - unfold pkr_pattern, pat, many in He. cbn [foldr app str_i] in He.
    inv_ends.
    match goal with H : In _ (ends number_group _) |- _ =>
      apply number_group_shape in H as (cap & Hcap & Hnum) end.
    exists cap. cbn [fst snd or_else group1]. rewrite Hcap. by split.
  - unfold rupee_pattern, pat, many in He. cbn [foldr app] in He.
    inv_ends. discriminate.
Qed.

(** X8: the stored amount is a fixed point of the reader: given back
    as the text, it is read as the same amount. *)
Theorem stored_amount_reads_back text a :
  parse_text_manually text !! "amount" = Some (PStr a) ->
  parse_text_manually a !! "amount" = Some (PStr a).
Proof.
  rewrite !parse_amount.
  destruct (first_match amount_patterns text) as [m|] eqn:Hm; [|discriminate].
  intros H. injection H as <-.
  apply first_match_Some_inv in Hm as (p & Hp & Hm).
  apply re_search_Some_inv in Hm as [i Hi].
  destruct (amount_pattern_shape p _ m Hp Hi) as (cap & -> & Hnum).
  change (format_group (Some cap)) with cap. unfold amount_patterns. cbn [first_match].
  rewrite (re_search_here _ _ _ (rs_pattern_on_stored cap Hnum)). reflexivity.
Qed.

Lemma stored_amount_reads_back_witness :
  parse_text_manually "Rs. 1,234.50" !! "amount" = Some (PStr "Rs. 1,234.50").
Proof.
  apply (stored_amount_reads_back ("Total PKR 1,234.50" ++ newline ++ "Done")).
  vm_compute. reflexivity.
Defined.

(** ** The span of the reply handed to the JSON decoder *)


(** Greedy repetition followed by [r2]: the matcher gives back characters
    until [r2] matches. *)
Lemma head_flat_map_rev_seq {A} (g : nat -> list A) lo n x : forall k,
  (lo <= n < lo + k)%nat ->
  (forall j, (n < j < lo + k)%nat -> g j = []) ->
  head (g n) = Some x ->
  head (flat_map g (rev (seq lo k))) = Some x.
Proof.
  induction k as [|k IH]; intros Hn Hskip Hx; [lia|].
  rewrite seq_S, rev_app_distr. cbn [rev app flat_map].
  destruct (decide (n = lo + k)%nat) as [->|Hne].
  - destruct (g (lo + k)%nat); [discriminate|]. exact Hx.
  - rewrite (Hskip (lo + k)%nat) by lia. cbn [app].
    apply IH; [lia| |exact Hx]. intros j Hj. apply Hskip. lia.
Qed.

Lemma head_ends_Rep_backtrack p lo hi r2 s n g2 n2 :
  (lo <= n <= run p hi s)%nat ->
  (forall j, (n < j <= run p hi s)%nat -> ends r2 (drop_str j s) = []) ->
  head (ends r2 (drop_str n s)) = Some (g2, n2) ->
  head (ends (Cat (Rep p lo hi) r2) s) = Some (or_else g2 None, (n + n2)%nat).
Proof.
  intros Hn Hskip H2. cbn [ends].
  rewrite flat_map_concat_map, <- list_fmap_compose, <- flat_map_concat_map.
  apply (head_flat_map_rev_seq _ lo n).
  - lia.
  - intros j Hj. cbn. rewrite Hskip by lia. reflexivity.
  - cbn. destruct (ends r2 (drop_str n s)) as [|e l]; [discriminate|].
    injection H2 as ->. reflexivity.
Qed.

Lemma run_all_any s : run_all any_char s = String.length s.
Proof. induction s as [|c s IH]; simpl; [reflexivity|]. by rewrite IH. Qed.

Lemma drop_str_app_more a b j :
  drop_str (String.length a + j) (a ++ b) = drop_str j b.
Proof.
  induction a as [|c a IH]; [reflexivity|].
  change (String c a ++ b) with (String c (a ++ b)). exact IH.
Qed.

Lemma all_chars_drop p j : forall s,
  all_chars p s = true -> all_chars p (drop_str j s) = true.
Proof.
  induction j as [|j IH]; intros s H; [exact H|].
  destruct s as [|c s]; [reflexivity|]. simpl in H.
  apply andb_true_iff in H as [_ H]. simpl. by apply IH.
Qed.

Lemma no_closing_here post :
  all_chars (not_char "}") post = true ->
  ends (Cat (Chr (lit "}")) Eps) post = [].
Proof.
  destruct post as [|c post]; [reflexivity|]. cbn [all_chars ends].
  intros H. apply andb_true_iff in H as [Hc _]. unfold not_char in Hc.
  apply negb_true_iff in Hc. rewrite Hc. reflexivity.
Qed.

(** From an opening brace the match runs to the last closing brace. *)
Lemma json_span_at mid post :
  all_chars (not_char "}") post = true ->
  match_at json_span ("{" ++ mid ++ "}" ++ post)
  = Some {| group0 := "{" ++ mid ++ "}"; group1 := None |}.
Proof.
  intros Hpost.
  change ("{" ++ mid ++ "}" ++ post) with (String "{" (mid ++ String "}" post)).
  unfold json_span, pat, many. cbn [foldr].
  erewrite match_at_head.
  2:{ eapply (head_ends_Cat_at _ _ _ None 1); [reflexivity|]. cbn [drop_str].
      apply (head_ends_Rep_backtrack _ _ _ _ _ (String.length mid) None 1).
      - unfold run. rewrite run_all_any, length_append_str. lia.
      - intros j Hj. unfold run in Hj. rewrite run_all_any, length_append_str in Hj.
        simpl in Hj.
        replace j with (String.length mid + S (j - String.length mid - 1))%nat by lia.
        rewrite drop_str_app_more. cbn [drop_str].
        apply no_closing_here, all_chars_drop, Hpost.
      - replace (String.length mid) with (String.length mid + 0)%nat by lia.
        rewrite drop_str_app_more. reflexivity. }
  cbn [fst snd or_else Nat.add take_str]. f_equal. f_equal.
  change ("{" ++ mid ++ "}") with (String "{" (mid ++ "}")). f_equal.
  rewrite take_str_add.
  replace (String.length mid) with (String.length mid + 0)%nat at 2 by lia.
  rewrite drop_str_app_more. cbn [drop_str take_str].
  clear. induction mid as [|c mid IH]; [reflexivity|].
  change (String c mid ++ String "}" post) with (String c (mid ++ String "}" post)).
  change (String c mid ++ "}") with (String c (mid ++ "}")).
  cbn [String.length take_str].
  change (String c (take_str (String.length mid) (mid ++ String "}" post)) ++ "}")
    with (String c (take_str (String.length mid) (mid ++ String "}" post) ++ "}")).
  by rewrite IH.
Qed.

Lemma json_span_needs_opening c s :
  lit "{" c = false -> match_at json_span (String c s) = None.
Proof. intros H. unfold match_at, json_span, pat. cbn [foldr ends]. rewrite H. reflexivity. Qed.

Lemma json_span_empty : match_at json_span "" = None.
Proof. reflexivity. Qed.

Lemma json_span_search pre mid post :
  all_chars (not_char "{") pre = true ->
  all_chars (not_char "}") post = true ->
  re_search json_span (pre ++ "{" ++ mid ++ "}" ++ post)
  = Some {| group0 := "{" ++ mid ++ "}"; group1 := None |}.
Proof.
  intros Hpre Hpost. induction pre as [|c pre IH].
  - change ("" ++ "{" ++ mid ++ "}" ++ post) with ("{" ++ mid ++ "}" ++ post).
    apply re_search_here, json_span_at, Hpost.
  - simpl in Hpre. apply andb_true_iff in Hpre as [Hc Hpre].
    change (String c pre ++ "{" ++ mid ++ "}" ++ post)
      with (String c (pre ++ "{" ++ mid ++ "}" ++ post)).
    cbn [re_search]. rewrite json_span_needs_opening by (by apply negb_true_iff).
    by apply IH.
Qed.

Lemma json_span_no_opening s :
  all_chars (not_char "{") s = true -> re_search json_span s = None.
Proof.
  induction s as [|c s IH]; intros H; [reflexivity|].
  simpl in H. apply andb_true_iff in H as [Hc H].
  cbn [re_search]. rewrite json_span_needs_opening by (by apply negb_true_iff).
  by apply IH.
Qed.

(** X9: the reply is decoded from its first opening to its last closing
    brace; what the decoder does with that text decides the result: its
    object, the raw reply under [all_text] when it raises
    [JSONDecodeError], the message under [error] when it raises anything
    else. *)
Theorem reply_decoded_between_braces {image} (w : World image) data mime img reply
    pre mid post :
  GEMINI_AVAILABLE w = true ->
  Image_open w data = Ok img ->
  generate_content w img = Ok reply ->
  strip reply = pre ++ "{" ++ mid ++ "}" ++ post ->
  all_chars (not_char "{") pre = true ->
  all_chars (not_char "}") post = true ->
  extract_with_gemini w data mime =
    match json_loads w ("{" ++ mid ++ "}") with
    | Ok d => Ok d
    | Raise e =>
        match exn_kind_of e with
        | JSONDecodeError => Ok {[ "all_text" := PStr reply ]}
        | OtherError => Ok {[ "error" := PStr (exn_msg e) ]}
        end
    end.
Proof.
  intros Ha Hopen Hgen Hstrip Hpre Hpost.
  unfold extract_with_gemini, extract_with_gemini_try.
  rewrite Ha, Hopen. cbn [negb mbind result_bind]. rewrite Hgen. cbn [mbind result_bind].
  rewrite Hstrip, (json_span_search pre mid post Hpre Hpost). cbn [group0].
  destruct (json_loads w ("{" ++ mid ++ "}")) as [d|e]; [reflexivity|].
  cbn [mbind result_bind try_except_json]. destruct (exn_kind_of e); reflexivity.
Qed.

Lemma reply_decoded_between_braces_witness :
  extract_with_gemini extra_key_world [] "image/png" = Ok extra_key_record.
Proof.
  apply (reply_decoded_between_braces extra_key_world [] "image/png" [] extra_key_reply
           "" (quoted "all_text" ++ ": " ++ quoted "Paid Rs. 500" ++ ", "
               ++ quoted "note" ++ ": " ++ quoted "ok") "");
    vm_compute; reflexivity.
Defined.

(** X10: a reply without an opening brace is kept as the text itself,
    stripped. *)
Theorem reply_without_braces_is_text {image} (w : World image) data mime img reply :
  GEMINI_AVAILABLE w = true ->
  Image_open w data = Ok img ->
  generate_content w img = Ok reply ->
  all_chars (not_char "{") (strip reply) = true ->
  extract_with_gemini w data mime = Ok {[ "all_text" := PStr (strip reply) ]}.
Proof.
  intros Ha Hopen Hgen Hno.
  unfold extract_with_gemini, extract_with_gemini_try.
  rewrite Ha, Hopen. cbn [negb mbind result_bind]. rewrite Hgen. cbn [mbind result_bind].
  rewrite (json_span_no_opening _ Hno). reflexivity.
Qed.

Lemma reply_without_braces_is_text_witness :
  extract_with_gemini
    (example_world true (Ok "  Paid Rs. 500 to Bilal  ") (fun _ => Raise json_error) (Ok ""))
    [] "image/png"
  = Ok {[ "all_text" := PStr "Paid Rs. 500 to Bilal" ]}.
Proof.
  apply (reply_without_braces_is_text _ [] "image/png" [] "  Paid Rs. 500 to Bilal  ");
    vm_compute; reflexivity.
Defined.

(** ** The loop over the recognition configurations *)

Section BestOfConfigs.
Context {image : Type} (w : World image) (img : image).

Lemma best_of_configs_foldl cs :
  best_of_configs w img cs = foldl (keep_longer w img) EmptyString cs.
Proof. reflexivity. Qed.

Lemma keep_longer_grows best c :
  (String.length (strip best) <= String.length (strip (keep_longer w img best c)))%nat.
Proof.
  unfold keep_longer. destruct (image_to_string w img c) as [t|e]; [|lia].
  destruct (Nat.ltb_spec (String.length (strip best)) (String.length (strip t))); lia.
Qed.

Lemma foldl_keep_longer_grows cs : forall best,
  (String.length (strip best) <= String.length (strip (foldl (keep_longer w img) best cs)))%nat.
Proof.
  induction cs as [|c cs IH]; intros best; simpl; [lia|].
  pose proof (keep_longer_grows best c). pose proof (IH (keep_longer w img best c)). lia.
Qed.

Lemma foldl_keep_longer_covers cs : forall best c t,
  c ∈ cs -> image_to_string w img c = Ok t ->
  (String.length (strip t) <= String.length (strip (foldl (keep_longer w img) best cs)))%nat.
Proof.
  induction cs as [|c' cs IH]; intros best c t Hin Ht; [inversion Hin|].
  apply elem_of_cons in Hin as [->|Hin]; [|by eapply IH].
  simpl. pose proof (foldl_keep_longer_grows cs (keep_longer w img best c')).
  assert (String.length (strip t) <= String.length (strip (keep_longer w img best c')))%nat; [|lia].
  unfold keep_longer. rewrite Ht.
  destruct (Nat.ltb_spec (String.length (strip best)) (String.length (strip t))); lia.
Qed.

Lemma foldl_keep_longer_origin cs : forall best,
  foldl (keep_longer w img) best cs = best \/
  exists c, c ∈ cs /\ image_to_string w img c = Ok (foldl (keep_longer w img) best cs) /\
            (String.length (strip best) < String.length (strip (foldl (keep_longer w img) best cs)))%nat.
Proof.
  induction cs as [|c cs IH]; intros best; simpl; [by left|].
  destruct (IH (keep_longer w img best c)) as [Heq | (c' & Hin & Hc' & Hlt)].
  - rewrite Heq. unfold keep_longer.
    destruct (image_to_string w img c) as [t|e] eqn:Ht; [|by left].
    destruct (Nat.ltb_spec (String.length (strip best)) (String.length (strip t)));
      [|by left].
    right. exists c. split; [by left|]. split; [exact Ht|lia].
  - right. exists c'. split; [by right|]. split; [exact Hc'|].
    pose proof (keep_longer_grows best c). lia.
Qed.

(** X11: no configuration gives a text that is longer, once stripped,
    than the text the loop keeps. *)
Theorem best_of_configs_is_longest cs c t :
  c ∈ cs -> image_to_string w img c = Ok t ->
  (String.length (strip t) <= String.length (strip (best_of_configs w img cs)))%nat.
Proof. intros Hin Ht. rewrite best_of_configs_foldl. by eapply foldl_keep_longer_covers. Qed.

(** X12: the text the loop keeps is the empty text, or the unstripped
    output of one of the configurations, and then it is not blank. *)
Theorem best_of_configs_origin cs :
  best_of_configs w img cs = EmptyString \/
  exists c, c ∈ cs /\ image_to_string w img c = Ok (best_of_configs w img cs) /\
            strip (best_of_configs w img cs) <> EmptyString.
Proof.
  rewrite best_of_configs_foldl.
  destruct (foldl_keep_longer_origin cs EmptyString) as [H | (c & Hin & Hc & Hlt)];
    [by left|].
  right. exists c. split; [exact Hin|]. split; [exact Hc|].
  intros Hnil. rewrite Hnil in Hlt. simpl in Hlt. lia.
Qed.

End BestOfConfigs.

Lemma best_of_configs_is_longest_witness :
  (String.length (strip "Paid Rs. 500 ")
   <= String.length (strip (best_of_configs per_config_world [] Complete.configs)))%nat.
Proof.
  apply (best_of_configs_is_longest per_config_world [] Complete.configs "--psm 4").
  - apply list_elem_of_In. simpl. tauto.
  - reflexivity.
Defined.

(** ** An upload that is no image *)

Lemma parse_empty_text : parse_text_manually "" = initial_data "".
Proof. reflexivity. Qed.

Lemma error_mapping_rejected msg :
  gemini_accepted {[ "error" := PStr msg ]} = false.
Proof.
  unfold gemini_accepted, get.
  rewrite (lookup_singleton_ne "error" "all_text") by discriminate.
  apply andb_false_r.
Qed.

Lemma gemini_undecodable {image} (w : World image) data mime e :
  GEMINI_AVAILABLE w = true ->
  Image_open w data = Raise e ->
  extract_with_gemini w data mime = Ok {[ "error" := PStr (exn_msg e) ]}.
Proof.
  intros Ha Hopen. apply extract_with_gemini_raised.
  unfold extract_with_gemini_try. rewrite Ha, Hopen. reflexivity.
Qed.

Lemma complete_tesseract_undecodable {image} (w : World image) data e :
  Image_open w data = Raise e ->
  Complete.extract_with_tesseract w data = Ok EmptyString.
Proof.
  intros Hopen. unfold Complete.extract_with_tesseract.
  rewrite (complete_preprocess_undecodable w data e Hopen). reflexivity.
Qed.

Lemma single_tesseract_undecodable {image} (w : World image) data e :
  Image_open w data = Raise e ->
  (forall img, cv2_imdecode w data <> Ok (Some img)) ->
  Single.extract_with_tesseract w data = Ok EmptyString.
Proof.
  intros Hopen Hcv. unfold Single.extract_with_tesseract, Single.preprocess_image_for_ocr.
  destruct (cv2_imdecode w data) as [[img|]|e'] eqn:Hd.
  - by destruct (Hcv img).
  - reflexivity.
  - cbn. rewrite Hopen. reflexivity.
Qed.

Lemma upload_without_image {image} (w : World image) tess data ct e :
  Image_open w data = Raise e ->
  tess data = Ok EmptyString ->
  upload_file_with w tess data ct
  = Success (initial_data "") "tesseract" (GEMINI_AVAILABLE w).
Proof.
  intros Hopen Ht. rewrite <- parse_empty_text.
  destruct (GEMINI_AVAILABLE w) eqn:Ha.
  - eapply upload_rejects; [exact Ha| |apply error_mapping_rejected|exact Ht].
    by apply gemini_undecodable.
  - by apply upload_unavailable.
Qed.

(** X13: bytes that Pillow cannot decode are still answered with a
    success: both adapters absorb the failure and the record is the blank
    one of the Field Parser (in [single_file_panel.py] when OpenCV does not
    decode them either). *)
Theorem undecodable_upload_gives_blank_record {image} (w : World image) data ct e :
  Image_open w data = Raise e ->
  Complete.upload_file w data ct
    = Success (initial_data "") "tesseract" (GEMINI_AVAILABLE w) /\
  ((forall img, cv2_imdecode w data <> Ok (Some img)) ->
   Single.upload_file w data ct
     = Success (initial_data "") "tesseract" (GEMINI_AVAILABLE w)).
Proof.
  intros Hopen. split.
  - eapply upload_without_image; [exact Hopen|].
    by eapply complete_tesseract_undecodable.
  - intros Hcv. eapply upload_without_image; [exact Hopen|].
    by eapply single_tesseract_undecodable.
Qed.

Lemma undecodable_upload_gives_blank_record_witness :
  Complete.upload_file undecodable_world [] "text/plain"
    = Success (initial_data "") "tesseract" true /\
  ((forall img, cv2_imdecode undecodable_world [] <> Ok (Some img)) ->
   Single.upload_file undecodable_world [] "text/plain"
     = Success (initial_data "") "tesseract" true).
Proof.
  apply (undecodable_upload_gives_blank_record undecodable_world [] "text/plain" decode_error).
  reflexivity.
Defined.

(** ** The file name check *)

Lemma contains_dot_cons c s :
  contains "." (String c s) = Ascii.eqb "." c || contains "." s.
Proof. simpl. by rewrite andb_true_r. Qed.

Lemma split_last_None s :
  split_last "." s = None <-> contains "." s = false.
Proof.
  induction s as [|c s IH]; [by split|].
  rewrite contains_dot_cons. cbn [split_last].
  destruct (split_last "." s) as [[a b]|].
  - split; [discriminate|]. intros H. apply orb_false_iff in H as [_ H].
    apply IH in H. discriminate.
  - destruct (Ascii.eqb "." c); [by split|].
    split; [intros _; simpl; by apply IH | reflexivity].
Qed.

Lemma split_last_Some s a b :
  split_last "." s = Some (a, b) <-> s = a ++ "." ++ b /\ contains "." b = false.
Proof.
  revert a. induction s as [|c s IH]; intros a.
  - split; [discriminate|]. intros [H _]. destruct a; discriminate.
  - cbn [split_last]. destruct (split_last "." s) as [[a' b']|] eqn:Hs.
    + split.
      * intros H. injection H as <- <-. destruct (proj1 (IH a') eq_refl) as [-> Hb].
        by split.
      * intros [H Hb]. destruct a as [|x a].
        -- change ("" ++ "." ++ b) with (String "." b) in H. injection H as -> ->.
           apply split_last_None in Hb. congruence.
        -- change (String x a ++ "." ++ b) with (String x (a ++ "." ++ b)) in H.
           injection H as <- H. assert (Hab := proj2 (IH a) (conj H Hb)).
           congruence.
    + apply split_last_None in Hs. destruct (Ascii.eqb "." c) eqn:Hc.
      * apply Ascii.eqb_eq in Hc as <-. split.
        -- intros H. injection H as <- <-. by split.
        -- intros [H Hb]. destruct a as [|x a].
           ++ change ("" ++ "." ++ b) with (String "." b) in H. by injection H as ->.
           ++ change (String x a ++ "." ++ b) with (String x (a ++ "." ++ b)) in H.
              injection H as <- H. rewrite H, contains_app in Hs. discriminate.
      * split; [discriminate|]. intros [H Hb]. destruct a as [|x a].
        -- change ("" ++ "." ++ b) with (String "." b) in H. injection H as -> _.
           discriminate.
        -- change (String x a ++ "." ++ b) with (String x (a ++ "." ++ b)) in H.
           injection H as <- H. rewrite H, contains_app in Hs. discriminate.
Qed.

(** X14: the check never raises, and it passes exactly the names whose
    text after the last dot is, in lower case, one of the six extensions. *)
Theorem allowed_file_by_last_extension filename :
  exists b, allowed_file filename = Ok b /\
    (b = true <->
     exists stem ext, filename = stem ++ "." ++ ext /\ contains "." ext = false /\
       str_lower ext ∈ ALLOWED_EXTENSIONS).
Proof.
  unfold allowed_file, rsplit1. destruct (contains "." filename) eqn:Hc.
  - destruct (split_last "." filename) as [[a b]|] eqn:Hs.
    + cbn. eexists. split; [reflexivity|].
      apply split_last_Some in Hs as Hab. destruct Hab as [Hf Hb].
      rewrite bool_decide_eq_true. split.
      * intros Hin. exists a, b. auto.
      * intros (stem & ext & Hf' & Hext & Hin).
        assert (Hs' : split_last "." filename = Some (stem, ext))
          by (apply split_last_Some; auto).
        rewrite Hs in Hs'. by injection Hs' as -> ->.
    + apply split_last_None in Hs. congruence.
  - exists false. split; [reflexivity|]. split; [discriminate|].
    intros (stem & ext & -> & _). rewrite contains_app in Hc. discriminate.
Qed.

(** ** The upload route *)

Lemma allowed_file_total filename : exists b, allowed_file filename = Ok b.
Proof.
  unfold allowed_file, rsplit1. destruct (contains "." filename) eqn:Hc; [|eauto].
  destruct (split_last "." filename) as [[a b]|] eqn:Hs; [cbn; eauto|].
  apply split_last_None in Hs. congruence.
Qed.

Section UploadRoute.
Context {image : Type} (w : World image).
Variable secure_filename : string -> string.
Variable timestamp : string.
Variable tess : list byte -> result string.
Hypothesis tess_total : forall data, exists text, tess data = Ok text.

Lemma upload_file_with_Success data ct d m a :
  upload_file_with w tess data ct = Success d m a ->
  upload_file_body w tess data ct = Ok (d, m) /\ a = GEMINI_AVAILABLE w.
Proof.
  unfold upload_file_with.
  destruct (upload_file_body w tess data ct) as [[d' m']|e]; [|discriminate].
  intros H. injection H as -> -> <-. auto.
Qed.

Lemma upload_file_body_total data ct :
  exists d m, upload_file_body w tess data ct = Ok (d, m) /\
    upload_file_with w tess data ct = Success d m (GEMINI_AVAILABLE w) /\
    (m = "gemini" \/ m = "tesseract").
Proof.
  destruct (upload_cases w tess tess_total data ct)
    as [(d & _ & _ & _ & Hup) | (text & _ & Hup)];
    destruct (upload_file_with_Success _ _ _ _ _ Hup) as [Hbody Ha];
    do 2 eexists; (split; [exact Hbody|]); rewrite Hup; (split; [f_equal; exact Ha|auto]).
Qed.

Lemma allowed_file_nonempty name : allowed_file name = Ok true -> name <> "".
Proof. intros H ->. discriminate. Qed.

Lemma upload_route_allowed files file :
  files !! "file" = Some file ->
  allowed_file (Routes.filename file) = Ok true ->
  exists d m,
    upload_file_with w tess (Routes.read file) (Routes.content_type file)
      = Success d m (GEMINI_AVAILABLE w) /\
    (m = "gemini" \/ m = "tesseract") /\
    Routes.upload_file w secure_filename timestamp tess (Ok files) =
      {| Routes.status := 200;
         Routes.body :=
           {[ "success" := PBool true;
              "filename" := PStr (timestamp ++ "_" ++ secure_filename (Routes.filename file));
              "extracted_data" := PDict d;
              "extraction_method" := PStr m;
              "gemini_available" := PBool (GEMINI_AVAILABLE w);
              "image_url" := PStr ("data:" ++ Routes.content_type file ++ ";base64,"
                                   ++ b64encode w (Routes.read file)) ]} |}.
Proof.
  intros Hfile Hok.
  destruct (upload_file_body_total (Routes.read file) (Routes.content_type file))
    as (d & m & Hbody & Hwith & Hm).
  exists d, m. split; [exact Hwith|]. split; [exact Hm|].
  unfold Routes.upload_file. cbn [mbind result_bind]. rewrite Hfile.
  pose proof (allowed_file_nonempty _ Hok) as Hne.
  destruct (String.eqb_spec (Routes.filename file) "") as [Heq|_]; [contradiction|].
  assert (Ht : truthy (PStr (Routes.filename file)) = true).
  { destruct (Routes.filename file); [contradiction|reflexivity]. }
  rewrite Ht, Hok. cbn. rewrite Hbody. reflexivity.
Qed.

Lemma upload_route_refused files file b :
  files !! "file" = Some file ->
  allowed_file (Routes.filename file) = Ok b -> b = false ->
  Routes.upload_file w secure_filename timestamp tess (Ok files) =
    Routes.error_reply 400
      (if String.eqb (Routes.filename file) "" then "No file selected"
       else "Invalid file type").
Proof.
  intros Hfile Hb ->. unfold Routes.upload_file. cbn [mbind result_bind]. rewrite Hfile.
  destruct (String.eqb (Routes.filename file) ""); [reflexivity|].
  rewrite Hb. destruct (truthy _); reflexivity.
Qed.

(** X15: with an adapter that never raises, the upload route answers 500
    exactly when reading the request raises, and then with the message of
    that exception; it answers 200 exactly when the request is read and has
    a file whose name passes the check; every other request is answered
    with 400 and the message of its refusal. *)
Theorem upload_route_statuses (request_files : result (gmap string Routes.FileStorage)) :
  let r := Routes.upload_file w secure_filename timestamp tess request_files in
  (Routes.status r = 200%Z \/ Routes.status r = 400%Z \/ Routes.status r = 500%Z) /\
  (Routes.status r = 500%Z <-> exists e, request_files = Raise e) /\
  (forall e, request_files = Raise e ->
     r = Routes.error_reply 500 ("Processing failed: " ++ exn_msg e)) /\
  (Routes.status r = 200%Z <->
     exists files file, request_files = Ok files /\ files !! "file" = Some file /\
                        allowed_file (Routes.filename file) = Ok true) /\
  (forall files, request_files = Ok files -> Routes.status r <> 200%Z ->
     r = Routes.error_reply 400
           match files !! "file" with
           | None => "No file provided"
           | Some file =>
               if String.eqb (Routes.filename file) "" then "No file selected"
               else "Invalid file type"
           end).
Proof.
  intros r. subst r. destruct request_files as [files|e].
  - assert (Hno : ~ exists e, Ok files = @Raise (gmap string Routes.FileStorage) e)
      by (intros [e He]; discriminate).
    destruct (files !! "file") as [file|] eqn:Hfile.
    + destruct (allowed_file_total (Routes.filename file)) as [b Hb].
      destruct b.
      * destruct (upload_route_allowed files file Hfile Hb) as (d & m & _ & _ & ->).
        cbn [Routes.status].
        split; [auto|]. split; [split; [discriminate | intros H; by destruct Hno]|].
        split; [discriminate|]. split; [split; [eauto|reflexivity]|].
        intros files' Hf' H. by destruct H.
      * rewrite (upload_route_refused files file false Hfile Hb eq_refl).
        cbn [Routes.status Routes.error_reply].
        split; [auto|]. split; [split; [discriminate | intros H; by destruct Hno]|].
        split; [discriminate|]. split.
        -- split; [discriminate|].
           intros (files' & file' & Hf' & Hf & Hok). injection Hf' as <-.
           rewrite Hfile in Hf. injection Hf as <-. congruence.
        -- intros files' Hf' _. injection Hf' as <-. rewrite Hfile. reflexivity.
    + unfold Routes.upload_file. cbn [mbind result_bind]. rewrite Hfile.
      cbn [Routes.status Routes.error_reply].
      split; [auto|]. split; [split; [discriminate | intros H; by destruct Hno]|].
      split; [discriminate|]. split.
      * split; [discriminate|].
        intros (files' & file' & Hf' & Hf & _). injection Hf' as <-. congruence.
      * intros files' Hf' _. injection Hf' as <-. rewrite Hfile. reflexivity.
  - cbn. split; [auto|]. split; [split; eauto|].
    split; [intros e' He'; by injection He' as <-|]. split.
    + split; [discriminate|]. intros (files & file & Hf & _). discriminate.
    + intros files Hf. discriminate.
Qed.

(** X16: an accepted upload is answered with the orchestrator's result
    and the file itself as a data URL, under a name made of the time and the
    sanitized file name. *)
Theorem upload_route_payload files file :
  files !! "file" = Some file ->
  allowed_file (Routes.filename file) = Ok true ->
  exists d m,
    upload_file_with w tess (Routes.read file) (Routes.content_type file)
      = Success d m (GEMINI_AVAILABLE w) /\
    (m = "gemini" \/ m = "tesseract") /\
    Routes.upload_file w secure_filename timestamp tess (Ok files) =
      {| Routes.status := 200;
         Routes.body :=
           {[ "success" := PBool true;
              "filename" := PStr (timestamp ++ "_" ++ secure_filename (Routes.filename file));
              "extracted_data" := PDict d;
              "extraction_method" := PStr m;
              "gemini_available" := PBool (GEMINI_AVAILABLE w);
              "image_url" := PStr ("data:" ++ Routes.content_type file ++ ";base64,"
                                   ++ b64encode w (Routes.read file)) ]} |}.
Proof. apply upload_route_allowed. Qed.

End UploadRoute.

Lemma upload_route_statuses_witness :
  let too_large : result (gmap string Routes.FileStorage) :=
    Raise (other_error "413 Request Entity Too Large") in
  let r := Routes.upload_file extra_key_world id "20260105_103000"
             (Complete.extract_with_tesseract extra_key_world) too_large in
  (Routes.status r = 200%Z \/ Routes.status r = 400%Z \/ Routes.status r = 500%Z) /\
  (Routes.status r = 500%Z <-> exists e, too_large = Raise e) /\
  (forall e, too_large = Raise e ->
     r = Routes.error_reply 500 ("Processing failed: " ++ exn_msg e)) /\
  (Routes.status r = 200%Z <->
     exists files file, too_large = Ok files /\ files !! "file" = Some file /\
                        allowed_file (Routes.filename file) = Ok true) /\
  (forall files, too_large = Ok files -> Routes.status r <> 200%Z ->
     r = Routes.error_reply 400
           match files !! "file" with
           | None => "No file provided"
           | Some file =>
               if String.eqb (Routes.filename file) "" then "No file selected"
               else "Invalid file type"
           end).
Proof.
  apply (upload_route_statuses extra_key_world id "20260105_103000"
           (Complete.extract_with_tesseract extra_key_world)
           (complete_tesseract_total extra_key_world)).
Defined.

Lemma upload_route_payload_witness :
  exists d m,
    upload_file_with extra_key_world (Complete.extract_with_tesseract extra_key_world)
      [] "image/png" = Success d m true /\
    (m = "gemini" \/ m = "tesseract") /\
    Routes.upload_file extra_key_world id "20260105_103000"
      (Complete.extract_with_tesseract extra_key_world) (Ok example_files) =
      {| Routes.status := 200;
         Routes.body :=
           {[ "success" := PBool true;
              "filename" := PStr "20260105_103000_receipt.final.PNG";
              "extracted_data" := PDict d;
              "extraction_method" := PStr m;
              "gemini_available" := PBool true;
              "image_url" := PStr "data:image/png;base64," ]} |}.
Proof.
  apply (upload_route_payload extra_key_world id "20260105_103000"
           (Complete.extract_with_tesseract extra_key_world)
           (complete_tesseract_total extra_key_world) example_files example_file).
  - reflexivity.
  - vm_compute. reflexivity.
Defined.

(** ** The generation route *)

Lemma truthy_dict (d : gmap string pyval) : truthy (PDict d) = true <-> d <> ∅.
Proof.
  simpl. rewrite negb_true_iff, Nat.eqb_neq. by rewrite map_size_empty_iff.
Qed.

Lemma generate_route_dict {image} (w : World image) d :
  d <> ∅ ->
  Routes.generate_screenshot w (Ok (PDict d)) =
    match Complete.render w d (get_or d "template_type" (PStr "jazzcash")) with
    | Ok img =>
        {| Routes.status := 200;
           Routes.body :=
             {[ "success" := PBool true;
                "screenshot_url" :=
                  PStr ("data:image/png;base64," ++ b64encode w (png_encode w img));
                "template_used" := get_or d "template_type" (PStr "jazzcash") ]} |}
    | Raise _ => Routes.error_reply 500 "Screenshot generation failed"
    end.
Proof.
  intros Hd. apply truthy_dict in Hd.
  unfold Routes.generate_screenshot. cbn [mbind result_bind]. rewrite Hd. cbn [negb].
  unfold Complete.generate_new_screenshot.
  destruct (Complete.render w d _) as [img|e]; reflexivity.
Qed.

(** X17: the generation route answers 200, 400 or 500; 400 exactly for
    a body whose JSON value is falsy, the empty object included; 200 exactly
    for a non-empty object that the synthesizer can draw. *)
Theorem generate_route_statuses {image} (w : World image) (req : result pyval) :
  let r := Routes.generate_screenshot w req in
  (Routes.status r = 200%Z \/ Routes.status r = 400%Z \/ Routes.status r = 500%Z) /\
  (Routes.status r = 400%Z <-> exists v, req = Ok v /\ truthy v = false) /\
  (Routes.status r = 200%Z <->
     exists d img, req = Ok (PDict d) /\ d <> ∅ /\
       Complete.render w d (get_or d "template_type" (PStr "jazzcash")) = Ok img).
Proof.
  intros r. subst r. destruct req as [v|e].
  - destruct (truthy v) eqn:Hv.
    + destruct v as [| | | | |l|d];
        try (unfold Routes.generate_screenshot; cbn [mbind result_bind]; rewrite Hv;
             cbn [negb Routes.status Routes.error_reply];
             split; [auto|]; split;
             (split; [discriminate|]);
             [intros (v' & Hv' & Hf); injection Hv' as <-; congruence
             |intros (d & img & Hd & _); discriminate]).
      apply truthy_dict in Hv as Hd. rewrite (generate_route_dict w d Hd).
      destruct (Complete.render w d _) as [img|e] eqn:Hr; cbn [Routes.status Routes.error_reply].
      * split; [auto|]. split.
        -- split; [discriminate|]. intros (v' & Hv' & Hf). injection Hv' as <-. congruence.
        -- split; [eauto|reflexivity].
      * split; [auto|]. split.
        -- split; [discriminate|]. intros (v' & Hv' & Hf). injection Hv' as <-. congruence.
        -- split; [discriminate|]. intros (d' & img & Hd' & _ & Hr').
           injection Hd' as <-. congruence.
    + unfold Routes.generate_screenshot. cbn [mbind result_bind]. rewrite Hv.
      cbn [negb Routes.status Routes.error_reply].
      split; [auto|]. split; [split; eauto|].
      split; [discriminate|]. intros (d & img & Hd & Hne & _). injection Hd as ->.
      apply truthy_dict in Hne. congruence.
  - cbn. split; [auto|]. split; (split; [discriminate|]).
    + intros (v & Hv & _). discriminate.
    + intros (d & img & Hd & _). discriminate.
Qed.

(** X18: a drawn request is answered with the data URL of the picture
    and with the template it named, [jazzcash] when it named none; the
    template is then a string. *)
Theorem generate_route_payload {image} (w : World image) d img :
  truthy (PDict d) = true ->
  Complete.render w d (get_or d "template_type" (PStr "jazzcash")) = Ok img ->
  Routes.generate_screenshot w (Ok (PDict d)) =
    {| Routes.status := 200;
       Routes.body :=
         {[ "success" := PBool true;
            "screenshot_url" :=
              PStr ("data:image/png;base64," ++ b64encode w (png_encode w img));
            "template_used" := get_or d "template_type" (PStr "jazzcash") ]} |} /\
  exists t, get_or d "template_type" (PStr "jazzcash") = PStr t.
Proof.
  intros Hd Hr. apply truthy_dict in Hd.
  rewrite (generate_route_dict w d Hd), Hr. split; [reflexivity|].
  unfold Complete.render in Hr. apply bind_Ok_inv in Hr as (tl & Htl & _).
  destruct (get_or d "template_type" (PStr "jazzcash")); try discriminate. eauto.
Qed.

Lemma generate_route_payload_witness :
  Routes.generate_screenshot extra_key_world (Ok (PDict edited_record)) =
    {| Routes.status := 200;
       Routes.body :=
         {[ "success" := PBool true;
            "screenshot_url" :=
              PStr ("data:image/png;base64,"
                    ++ b64encode extra_key_world (png_encode extra_key_world edited_canvas));
            "template_used" := get_or edited_record "template_type" (PStr "jazzcash") ]} |} /\
  exists t, get_or edited_record "template_type" (PStr "jazzcash") = PStr t.
Proof.
  apply (generate_route_payload extra_key_world edited_record edited_canvas).
  - reflexivity.
  - vm_compute. reflexivity.
Defined.

(** X19: a template that is present and no string, null included, is
    answered with the failure of the synthesizer. *)
Theorem non_string_template_fails {image} (w : World image) d v :
  d !! "template_type" = Some v ->
  (forall t, v <> PStr t) ->
  Routes.generate_screenshot w (Ok (PDict d))
    = Routes.error_reply 500 "Screenshot generation failed".
Proof.
  intros Hv Hns.
  assert (Hd : d <> ∅) by (intros ->; rewrite lookup_empty in Hv; discriminate).
  rewrite (generate_route_dict w d Hd). unfold get_or. rewrite Hv. cbn [default].
  unfold Complete.render.
  destruct v; try reflexivity. by destruct (Hns s).
Qed.

Lemma non_string_template_fails_witness :
  Routes.generate_screenshot extra_key_world
    (Ok (PDict {[ "amount" := PStr "Rs. 500"; "template_type" := PNone ]}))
  = Routes.error_reply 500 "Screenshot generation failed".
Proof.
  apply (non_string_template_fails extra_key_world _ PNone).
  - vm_compute. reflexivity.
  - discriminate.
Defined.

(** ** The gradient *)

Lemma channel_between c1 c2 y h :
  (0 < h)%Z -> (0 <= y < h)%Z ->
  (Z.min c1 c2 <= Complete.channel c1 c2 y h <= Z.max c1 c2)%Z.
Proof.
  intros Hh Hy. unfold Complete.channel.
  destruct (Z.le_ge_cases c1 c2) as [Hle|Hge].
  - assert (0 <= (c2 - c1) * y / h)%Z by (apply Z.div_pos; nia).
    assert ((c2 - c1) * y / h <= c2 - c1)%Z.
    { apply Z.div_le_upper_bound; nia. }
    lia.
  - assert ((c2 - c1) * y / h <= 0)%Z.
    { apply Z.div_le_upper_bound; nia. }
    assert (c2 - c1 <= (c2 - c1) * y / h)%Z.
    { apply Z.div_le_lower_bound; nia. }
    lia.
Qed.

(** X20: the background is one horizontal line per row, the first row
    in the first colour, every channel of every row between the two
    colours. *)
Theorem gradient_stays_between_colours r1 g1 b1 r2 g2 b2 width height op :
  (0 < height)%Z ->
  op ∈ Complete.gradient (r1, g1, b1) (r2, g2, b2) width height ->
  exists y r g b,
    op = DrawLine 0 y width y (RGB r g b) None /\
    (0 <= y < height)%Z /\
    (Z.min r1 r2 <= r <= Z.max r1 r2)%Z /\
    (Z.min g1 g2 <= g <= Z.max g1 g2)%Z /\
    (Z.min b1 b2 <= b <= Z.max b1 b2)%Z /\
    (y = 0%Z -> (r, g, b) = (r1, g1, b1)).
Proof.
  intros Hh Hop. unfold Complete.gradient in Hop.
  apply list_elem_of_fmap in Hop as (n & -> & Hn).
  apply list_elem_of_In, in_seq in Hn.
  assert (Hy : (0 <= Z.of_nat n < height)%Z) by lia.
  eexists _, _, _, _. split; [reflexivity|]. split; [exact Hy|].
  repeat (split; [by apply channel_between|]).
  intros ->. unfold Complete.channel. rewrite !Z.mul_0_r, Z.div_0_l by lia.
  by rewrite !Z.add_0_r.
Qed.

Lemma gradient_stays_between_colours_witness :
  exists y r g b,
    DrawLine 0 300 400 300 (RGB 255 152 0) None = DrawLine 0 y 400 y (RGB r g b) None /\
    (0 <= y < 600)%Z /\
    (Z.min 255 255 <= r <= Z.max 255 255)%Z /\
    (Z.min 165 140 <= g <= Z.max 165 140)%Z /\
    (Z.min 0 0 <= b <= Z.max 0 0)%Z /\
    (y = 0%Z -> (r, g, b) = (255, 165, 0)%Z).
Proof.
  apply (gradient_stays_between_colours 255 165 0 255 140 0 400 600); [lia|].
  apply list_elem_of_In. unfold Complete.gradient.
  change (DrawLine 0 300 400 300 (RGB 255 152 0) None)
    with ((fun y : nat =>
             DrawLine 0 (Z.of_nat y) 400 (Z.of_nat y)
               (RGB (Complete.channel 255 255 (Z.of_nat y) 600)
                    (Complete.channel 165 140 (Z.of_nat y) 600)
                    (Complete.channel 0 0 (Z.of_nat y) 600)) None) 300%nat).
  apply in_map, in_seq. lia.
Defined.

(** ** The rows of the receipt *)

Lemma draw_if_Ok_inv (b : bool) img xy v fill f a img' :
  (if b then Complete.draw_text img xy v fill f a else Ok img) = Ok img' ->
  (b = false /\ img' = img) \/
  (b = true /\ exists s, v = PStr s /\
     img' = Complete.add_op img (DrawText (fst xy) (snd xy) s fill f a)).
Proof.
  destruct b; intros H.
  - apply draw_text_Ok_inv in H as (s & -> & ->). right. eauto.
  - injection H as <-. by left.
Qed.

(** One step back through [render], keeping the test of a conditional
    [draw.text]. *)
Ltac step_back H :=
  let s := fresh "s" in let Hs := fresh "Hs" in let Hi := fresh "Hi" in
  let Hb := fresh "Hb" in
  apply bind_Ok_inv in H as (? & Hi & H);
  first [ apply draw_text_Ok_inv in Hi as (s & Hs & ->)
        | apply draw_if_Ok_inv in Hi as [[Hb ->] | (Hb & s & Hs & ->)]
        | idtac ].


(** X21: the row of the transaction id is drawn exactly when the id is
    truthy, and shows whatever value it is, formatted. *)
Theorem tid_row_iff_truthy {image} (w : World image) d t img :
  Complete.render w d t = Ok img ->
  texts_at 200 120 img =
    let tid := get_or d "transaction_id" (PStr "") in
    if truthy tid then ["TID: " ++ Complete.format_value w tid] else [].
Proof.
  intros H. unfold Complete.render in H.
  apply bind_Ok_inv in H as (tl & Htl & H).
  destruct (if String.eqb tl "jazzcash" then _ else _) as [c1 c2].
  destruct (Complete.load_fonts w) as [[tf xf] lf].
  do 17 (try step_back H).
  all: injection H as <-.
  all: rewrite !texts_at_add_op, gradient_no_text_at; cbn [fst snd Z.eqb Pos.eqb andb app].
  all: cbv zeta; rewrite Hb; try reflexivity.
  all: injection Hs0 as <-; reflexivity.
Qed.

Lemma tid_row_iff_truthy_witness :
  texts_at 200 120 edited_canvas = ["TID: 42"].
Proof.
  apply (tid_row_iff_truthy extra_key_world edited_record (PStr "JazzCash") edited_canvas).
  vm_compute. reflexivity.
Defined.



Lemma py_len_strings (l : list string) :
  Complete.py_len (PList (PStr <$> l)) = Ok (length l).
Proof. simpl. by rewrite length_fmap. Qed.

Lemma first_phone (l : list string) :
  (if truthy (PList (PStr <$> l)) then Complete.py_index (PList (PStr <$> l)) 0
   else Ok (PStr "")) = Ok (PStr (default "" (head l))).
Proof. by destruct l. Qed.

Lemma second_phone (l : list string) :
  (if (1 <? length l)%nat then Complete.py_index (PList (PStr <$> l)) 1
   else if truthy (PList (PStr <$> l)) then Complete.py_index (PList (PStr <$> l)) 0
   else Ok (PStr ""))
  = Ok (PStr (match l with
              | _ :: second :: _ => second
              | _ => default "" (head l)
              end)).
Proof. by destruct l as [|a [|b rest]]. Qed.

(** X23: the first phone number is shown under the receiver; under the
    sender the second one, or the first again when there is no second. *)
Theorem phone_rows {image} (w : World image) d t img (l : list string) :
  Complete.render w d t = Ok img ->
  get_or d "phone_numbers" (PList []) = PList (PStr <$> l) ->
  Forall (fun s => s <> "") l ->
  texts_at 330 395 img = take 1 l /\
  texts_at 330 475 img = match l with
                         | _ :: second :: _ => [second]
                         | _ => take 1 l
                         end.
Proof.
  intros H Hpn Hne. unfold Complete.render in H. rewrite Hpn in H.
  apply bind_Ok_inv in H as (tl & Htl & H).
  destruct (if String.eqb tl "jazzcash" then _ else _) as [c1 c2].
  destruct (Complete.load_fonts w) as [[tf xf] lf].
  do 17 (try step_back H).
  all: injection H as <-.
  all: rewrite !texts_at_add_op, !gradient_no_text_at; simpl.
  all: match goal with
       | Hx : Complete.py_len _ = Ok _ |- _ =>
           rewrite py_len_strings in Hx; injection Hx as <-
       end.
  all: match goal with
       | Hx : (if truthy _ then _ else _) = Ok _ |- _ =>
           rewrite first_phone in Hx; injection Hx as <-
       end.
  all: match goal with
       | Hx : (if (1 <? _)%nat then _ else _) = Ok _ |- _ =>
           rewrite second_phone in Hx; injection Hx as <-
       end.
  all: repeat match goal with
       | Hx : PStr _ = PStr _ |- _ => injection Hx as <-
       end.
  all: destruct l as [|a [|b rest]];
       repeat match goal with
       | Hf : Forall _ (_ :: _) |- _ => apply Forall_cons in Hf as [? Hf]
       end; cbn [head default from_option id take] in *.
  all: try (split; reflexivity).
  all: repeat match goal with
       | Hx : truthy (PStr ?s) = false |- _ =>
           destruct s; [contradiction | discriminate]
       | Hx : truthy (PStr "") = true |- _ => discriminate
       end.
Qed.

Lemma phone_rows_witness :
  texts_at 330 395 edited_canvas = ["03001234567"] /\
  texts_at 330 475 edited_canvas = ["03001234567"].
Proof.
  apply (phone_rows extra_key_world edited_record (PStr "JazzCash") edited_canvas
           ["03001234567"]).
  - vm_compute. reflexivity.
  - vm_compute. reflexivity.
  - repeat constructor. discriminate.
Defined.

(** ** When the synthesizer succeeds *)

Lemma render_of_strings {image} (w : World image) d t (l : list string) :
  (forall key x y dflt, (key, (x, y), dflt) ∈ slots w ->
     exists s, get_or d key (PStr dflt) = PStr s) ->
  get_or d "phone_numbers" (PList []) = PList (PStr <$> l) ->
  exists img, Complete.render w d (PStr t) = Ok img.
Proof.
  intros Hslot Hpn.
  destruct (Hslot "status" 200%Z 50%Z "Transaction Successful" ltac:(apply list_elem_of_In; simpl; tauto)) as [s1 H1].
  destruct (Hslot "date" 200%Z 145%Z (now_text w) ltac:(apply list_elem_of_In; simpl; tauto)) as [s2 H2].
  destruct (Hslot "amount" 200%Z 220%Z "Rs. 0.00" ltac:(apply list_elem_of_In; simpl; tauto)) as [s3 H3].
  destruct (Hslot "payment_method" 200%Z 260%Z "QR Payment" ltac:(apply list_elem_of_In; simpl; tauto)) as [s4 H4].
  destruct (Hslot "fee" 330%Z 320%Z "Rs. 0.00" ltac:(apply list_elem_of_In; simpl; tauto)) as [s5 H5].
  destruct (Hslot "receiver" 330%Z 370%Z "Receiver Name" ltac:(apply list_elem_of_In; simpl; tauto)) as [s6 H6].
  destruct (Hslot "sender" 330%Z 450%Z "Sender Name" ltac:(apply list_elem_of_In; simpl; tauto)) as [s7 H7].
  unfold Complete.render.
  rewrite H1, H2, H3, H4, H5, H6, H7, Hpn. cbn [mbind result_bind].
  destruct (String.eqb (str_lower t) "jazzcash");
    destruct (Complete.load_fonts w) as [[tf xf] lf];
    destruct (truthy (get_or d "transaction_id" (PStr "")));
    destruct l as [|[|c a] [|[|c' b] rest]];
    eexists; reflexivity.
Qed.

(** X24: a record whose seven displayed values are strings and whose
    phone numbers are a list of strings is always drawn, on a 400 by 600
    canvas, whatever its other keys hold and whatever the template is
    called. *)
Theorem string_record_is_drawn {image} (w : World image) d t (l : list string) :
  (forall key x y dflt, (key, (x, y), dflt) ∈ slots w ->
     exists s, get_or d key (PStr dflt) = PStr s) ->
  get_or d "phone_numbers" (PList []) = PList (PStr <$> l) ->
  exists img,
    Complete.generate_new_screenshot w d (PStr t)
      = Some ("data:image/png;base64," ++ b64encode w (png_encode w img)) /\
    cv_width img = 400%Z /\ cv_height img = 600%Z.
Proof.
  intros Hslot Hpn.
  destruct (render_of_strings w d t l Hslot Hpn) as [img Hr].
  exists img. unfold Complete.generate_new_screenshot. rewrite Hr.
  split; [reflexivity|].
  unfold Complete.render in Hr.
  apply bind_Ok_inv in Hr as (tl & Htl & Hr).
  destruct (if String.eqb tl "jazzcash" then _ else _) as [c1 c2].
  destruct (Complete.load_fonts w) as [[tf xf] lf].
  do 17 (try step_back Hr).
  all: injection Hr as <-.
  all: split; reflexivity.
Qed.

Lemma string_record_is_drawn_witness :
  exists img,
    Complete.generate_new_screenshot extra_key_world
      {[ "status" := PStr "Pending"; "bank_info" := PNone ]} (PStr "easypaisa")
      = Some ("data:image/png;base64,"
              ++ b64encode extra_key_world (png_encode extra_key_world img)) /\
    cv_width img = 400%Z /\ cv_height img = 600%Z.
Proof.
  apply (string_record_is_drawn extra_key_world _ "easypaisa" []).
  - intros key x y dflt Hslot. unfold slots in Hslot.
    repeat (apply elem_of_cons in Hslot as [Hslot|Hslot];
            [injection Hslot as -> _ _ ->; eexists; vm_compute; reflexivity|]).
    inversion Hslot.
  - vm_compute. reflexivity.
Defined.

Lemma slots_displayed {image} (w : World image) key x y dflt :
  (key, (x, y), dflt) ∈ slots w -> key ∈ displayed_keys.
Proof.
  unfold slots, displayed_keys. intros H.
  repeat (apply elem_of_cons in H as [H|H];
          [injection H as -> _ _ _; apply list_elem_of_In; simpl; tauto|]).
  inversion H.
Qed.

Lemma displayed_slot {image} (w : World image) key :
  key ∈ displayed_keys -> exists x y dflt, (key, (x, y), dflt) ∈ slots w.
Proof.
  unfold displayed_keys. intros H.
  repeat (apply elem_of_cons in H as [->|H];
          [do 3 eexists; apply list_elem_of_In; simpl; tauto|]).
  inversion H.
Qed.

(** ** Defaults replace absent keys only *)

(** Changing the value of one displayed key keeps the other values the
    synthesizer reads. *)
Lemma slot_values_after_change {image} (w : World image) (d0 : gmap string pyval)
    key (v : option pyval) :
  key ∈ displayed_keys ->
  (forall s, v = Some s -> exists t, s = PStr t) ->
  (forall key' x y dflt, (key', (x, y), dflt) ∈ slots w -> key' <> key ->
     exists s, get_or d0 key' (PStr dflt) = PStr s) ->
  forall key' x y dflt, (key', (x, y), dflt) ∈ slots w ->
    exists s, get_or (partial_alter (fun _ => v) key d0) key' (PStr dflt) = PStr s.
Proof.
  intros Hkey Hv Hd0 key' x y dflt Hslot. unfold get_or.
  destruct (decide (key = key')) as [<-|Hne].
  - rewrite lookup_partial_alter_eq. destruct v as [s|]; [|simpl; eauto].
    destruct (Hv s eq_refl) as [t ->]. simpl. eauto.
  - rewrite lookup_partial_alter_ne by exact Hne. eapply Hd0; [exact Hslot | congruence].
Qed.

Lemma phones_after_change (d0 : gmap string pyval) key (v : option pyval) dflt :
  key ∈ displayed_keys ->
  get_or (partial_alter (fun _ => v) key d0) "phone_numbers" dflt
  = get_or d0 "phone_numbers" dflt.
Proof.
  intros Hkey. unfold get_or. rewrite lookup_partial_alter_ne; [reflexivity|].
  intros ->. unfold displayed_keys in Hkey.
  repeat (apply elem_of_cons in Hkey as [Hkey|Hkey]; [discriminate|]). inversion Hkey.
Qed.

(** Rendering a record in which the key of a slot is absent, or present
    with a string: it succeeds when the other values are drawable, and the
    slot shows the default, or the string. *)
Lemma render_changed_slot {image} (w : World image) (d0 : gmap string pyval)
    (l : list string) t key x y dflt (v : option string) :
  (key, (x, y), dflt) ∈ slots w ->
  (forall key' x' y' dflt', (key', (x', y'), dflt') ∈ slots w -> key' <> key ->
     exists s, get_or d0 key' (PStr dflt') = PStr s) ->
  get_or d0 "phone_numbers" (PList []) = PList (PStr <$> l) ->
  let d := partial_alter (fun _ => PStr <$> v) key d0 in
  exists img,
    Complete.render w d (PStr t) = Ok img /\
    Complete.generate_new_screenshot w d (PStr t)
      = Some ("data:image/png;base64," ++ b64encode w (png_encode w img)) /\
    texts_at x y img = [default dflt v].
Proof.
  intros Hslot Hd0 Hpn d.
  assert (Hkey : key ∈ displayed_keys) by (by eapply slots_displayed).
  destruct (render_of_strings w d t l) as [img Hr].
  - apply slot_values_after_change; [exact Hkey| |exact Hd0].
    intros s Hs. destruct v as [u|]; [|discriminate]. injection Hs as <-. eauto.
  - subst d. by rewrite phones_after_change.
  - exists img. split; [exact Hr|]. split.
    + unfold Complete.generate_new_screenshot. by rewrite Hr.
    + destruct (render_slot w d (PStr t) img key x y dflt Hslot Hr) as (s & Hs & ->).
      subst d. unfold get_or in Hs. rewrite lookup_partial_alter_eq in Hs.
      destruct v as [u|]; simpl in Hs; injection Hs as <-; reflexivity.
Qed.

(** C10: for each key the synthesizer reads with a default, and a record
    whose other displayed values are drawable (absent or strings, the phone
    numbers absent or a list of strings): without the key the picture is
    drawn and shows the default at the key's position; with the key present
    and the empty string, the picture is drawn and shows the empty string
    there, not the default; and any record in which the key is present with
    the value null is not drawn at all: rendering raises and the function
    returns [None]. *)
Theorem defaults_only_for_absent_keys {image} (w : World image)
    (d0 : gmap string pyval) (l : list string) t key x y dflt :
  (key, (x, y), dflt) ∈ slots w ->
  (forall key' x' y' dflt', (key', (x', y'), dflt') ∈ slots w -> key' <> key ->
     exists s, get_or d0 key' (PStr dflt') = PStr s) ->
  get_or d0 "phone_numbers" (PList []) = PList (PStr <$> l) ->
  (exists img,
     Complete.render w (delete key d0) (PStr t) = Ok img /\
     Complete.generate_new_screenshot w (delete key d0) (PStr t)
       = Some ("data:image/png;base64," ++ b64encode w (png_encode w img)) /\
     texts_at x y img = [dflt]) /\
  (exists img,
     Complete.render w (<[key := PStr ""]> d0) (PStr t) = Ok img /\
     Complete.generate_new_screenshot w (<[key := PStr ""]> d0) (PStr t)
       = Some ("data:image/png;base64," ++ b64encode w (png_encode w img)) /\
     texts_at x y img = [""]) /\
  (forall d t', d !! key = Some PNone ->
     Complete.generate_new_screenshot w d t' = None).
Proof.
  intros Hslot Hd0 Hpn. split; [|split].
  - exact (render_changed_slot w d0 l t key x y dflt None Hslot Hd0 Hpn).
  - exact (render_changed_slot w d0 l t key x y dflt (Some "") Hslot Hd0 Hpn).
  - intros d t' Hk. by eapply null_slot_fails.
Qed.

Lemma defaults_only_for_absent_keys_witness :
  let w := extra_key_world in
  let d0 : gmap string pyval :=
    {[ "amount" := PNone; "status" := PStr "Pending" ]} in
  (exists img,
     Complete.render w (delete "amount" d0) (PStr "jazzcash") = Ok img /\
     Complete.generate_new_screenshot w (delete "amount" d0) (PStr "jazzcash")
       = Some ("data:image/png;base64," ++ b64encode w (png_encode w img)) /\
     texts_at 200 220 img = ["Rs. 0.00"]) /\
  (exists img,
     Complete.render w (<["amount" := PStr ""]> d0) (PStr "jazzcash") = Ok img /\
     Complete.generate_new_screenshot w (<["amount" := PStr ""]> d0) (PStr "jazzcash")
       = Some ("data:image/png;base64," ++ b64encode w (png_encode w img)) /\
     texts_at 200 220 img = [""]) /\
  Complete.generate_new_screenshot w d0 (PStr "jazzcash") = None.
Proof.
  intros w d0.
  assert (Hslot : ("amount", (200, 220)%Z, "Rs. 0.00") ∈ slots w)
    by (apply list_elem_of_In; simpl; tauto).
  assert (Hd0 : forall key' x' y' dflt', (key', (x', y'), dflt') ∈ slots w ->
            key' <> "amount" -> exists s, get_or d0 key' (PStr dflt') = PStr s).
  { intros key' x' y' dflt' H Hne. unfold slots in H.
    repeat (apply elem_of_cons in H as [H|H];
            [injection H as -> _ _ ->;
             first [ by destruct Hne | eexists; vm_compute; reflexivity ]|]).
    inversion H. }
  assert (Hpn : get_or d0 "phone_numbers" (PList []) = PList (PStr <$> []))
    by (vm_compute; reflexivity).
  destruct (defaults_only_for_absent_keys w d0 [] "jazzcash" "amount" 200 220 "Rs. 0.00"
              Hslot Hd0 Hpn) as (Habsent & Hempty & Hnull).
  split; [exact Habsent|]. split; [exact Hempty|].
  apply Hnull. vm_compute. reflexivity.
Defined.

(** X25: a record as the Field Parser returns it can be drawn exactly
    when the parser found all seven displayed fields; a field it left at
    null makes the synthesizer fail. *)
Theorem parsed_record_drawn_iff_complete {image} (w : World image) text t :
  is_Some (Complete.generate_new_screenshot w (parse_text_manually text) (PStr t)) <->
  forall key, key ∈ displayed_keys ->
    exists s, parse_text_manually text !! key = Some (PStr s).
Proof.
  split.
  - intros [url Hurl] key Hkey. unfold Complete.generate_new_screenshot in Hurl.
    destruct (Complete.render w (parse_text_manually text) (PStr t)) as [img|e] eqn:Hr;
      [|discriminate].
    destruct (displayed_slot w key Hkey) as (x & y & dflt & Hslot).
    destruct (render_slot w _ _ img key x y dflt Hslot Hr) as (s & Hs & _).
    assert (Hdom : key ∈ dom (parse_text_manually text)).
    { rewrite parse_text_manually_dom. unfold displayed_keys in Hkey.
      repeat (apply elem_of_cons in Hkey as [->|Hkey]; [in_keys|]). inversion Hkey. }
    apply elem_of_dom in Hdom as [v Hv]. unfold get_or in Hs. rewrite Hv in Hs.
    simpl in Hs. subst v. eauto.
  - intros Hall.
    destruct (render_of_strings w (parse_text_manually text) t
                (elements (phone_numbers text))) as [img Hr].
    + intros key x y dflt Hslot.
      destruct (Hall key (slots_displayed w key x y dflt Hslot)) as [s Hs].
      exists s. unfold get_or. rewrite Hs. reflexivity.
    + unfold get_or. rewrite parse_phone_numbers. reflexivity.
    + unfold Complete.generate_new_screenshot. rewrite Hr. eauto.
Qed.

(** ** Pattern fields are cut out of the text *)

(** What a group captures is a piece of the text matched. *)
Lemma group_is_piece r : forall s e g,
  In e (ends r s) -> fst e = Some g -> exists k n, g = take_str n (drop_str k s).
Proof.
  induction r as [|p|p lo hi|r1 IH1 r2 IH2|r IH]; intros s e g He Hg.
  - apply In_ends_Eps in He as ->. discriminate.
  - apply In_ends_Chr in He as (c & s' & _ & _ & ->). discriminate.
  - apply In_ends_Rep in He as [He _]. congruence.
  - apply In_ends_Cat in He as (e1 & e2 & He1 & He2 & ->). cbn [fst] in Hg.
    destruct (fst e2) as [g2|] eqn:Hg2; cbn [or_else] in Hg.
    + injection Hg as ->. destruct (IH2 _ _ _ He2 Hg2) as (k & n & ->).
      exists (snd e1 + k)%nat, n. by rewrite drop_str_drop_str.
    + by apply (IH1 s e1).
  - apply In_ends_Grp in He as (e' & _ & ->). cbn [fst] in Hg. injection Hg as <-.
    exists 0%nat, (snd e'). reflexivity.
Qed.

Lemma searched_group_in_text r text m g :
  re_search r text = Some m -> group1 m = Some g -> contains g text = true.
Proof.
  intros Hm Hg. apply re_search_Some_inv in Hm as [i Hi].
  apply match_at_Some in Hi as (e & He & ->). cbn [group1] in Hg.
  destruct (group_is_piece r _ e g He Hg) as (k & n & ->).
  rewrite drop_str_drop_str. apply contains_take_drop.
Qed.

(** A pattern that ends with a group which always captures a text with the
    property [P] captures such a text whenever it matches. *)
Lemma group_at_end (P : string -> Prop) grp :
  (forall s e, In e (ends grp s) -> exists g, fst e = Some g /\ P g) ->
  forall rs s e, In e (ends (pat (rs ++ [grp])) s) -> exists g, fst e = Some g /\ P g.
Proof.
  intros Hgrp rs. unfold pat. induction rs as [|r rs IH]; intros s e He; cbn [app foldr] in He.
  - apply In_ends_Cat in He as (e1 & e2 & He1 & He2 & ->).
    apply In_ends_Eps in He2 as ->. cbn [fst or_else]. by eapply Hgrp.
  - apply In_ends_Cat in He as (e1 & e2 & He1 & He2 & ->).
    destruct (IH _ _ He2) as (g & Hg & HP). exists g. cbn [fst]. by rewrite Hg.
Qed.



Lemma fee_pattern_shape r s m :
  r ∈ fee_patterns -> match_at r s = Some m ->
  exists cap, group1 m = Some cap /\ numeric_text cap.
Proof.
  intros Hr Hm. apply match_at_Some in Hm as (e & He & ->). cbn [group1].
  unfold fee_patterns in Hr.
  apply elem_of_cons in Hr as [->|Hr];
    [exact (group_at_end _ _ number_group_shape
              ([str_i "Fee"; many colon_space] ++ rs_prefix) _ _ He)|].
  apply list_elem_of_singleton in Hr as ->.
  exact (group_at_end _ _ number_group_shape
           ([str_i "Charges"; many colon_space] ++ rs_prefix) _ _ He).
Qed.

Lemma apply_field_date text data ps :
  apply_field text data ("date", ps) !! "date" =
  match first_match ps text with
  | Some m => Some (group_value (group1 m))
  | None => data !! "date"
  end.
Proof.
  unfold apply_field. destruct (first_match ps text); [|reflexivity].
  rewrite bool_decide_eq_false_2.
  - apply lookup_insert_eq.
  - intros H. repeat (apply elem_of_cons in H as [H|H]; [discriminate|]). inversion H.
Qed.

Lemma parse_date text :
  parse_text_manually text !! "date" =
  Some (match first_match date_patterns text with
        | Some m => group_value (group1 m)
        | None => PNone
        end).
Proof.
  rewrite parse_pattern_field by (apply list_elem_of_In; simpl; tauto).
  unfold apply_patterns, patterns. cbn [foldl].
  rewrite apply_field_other by discriminate.
  rewrite apply_field_date, !apply_field_other by discriminate.
  destruct (first_match date_patterns text); reflexivity.
Qed.

Lemma numeric_field_from_text ps text m :
  (forall r s m, r ∈ ps -> match_at r s = Some m ->
     exists cap, group1 m = Some cap /\ numeric_text cap) ->
  first_match ps text = Some m ->
  exists g, "Rs. " ++ format_group (group1 m) = "Rs. " ++ g /\
            numeric_text g /\ contains g text = true.
Proof.
  intros Hshape Hm. apply first_match_Some_inv in Hm as (p & Hp & Hm).
  destruct (re_search_Some_inv _ _ _ Hm) as [i Hi].
  destruct (Hshape p _ m Hp Hi) as (cap & Hcap & Hnum).
  exists cap. rewrite Hcap. split; [reflexivity|]. split; [exact Hnum|].
  by eapply searched_group_in_text.
Qed.



(** X27: the date, the amount and the fee are cut out of the text: a
    stored date occurs in the text, a stored amount or fee is [Rs. ]
    followed by a numeric text that occurs in the text. *)
Theorem pattern_fields_come_from_text text s :
  (parse_text_manually text !! "date" = Some (PStr s) -> contains s text = true) /\
  (parse_text_manually text !! "amount" = Some (PStr s) ->
     exists g, s = "Rs. " ++ g /\ numeric_text g /\ contains g text = true) /\
  (parse_text_manually text !! "fee" = Some (PStr s) ->
     exists g, s = "Rs. " ++ g /\ numeric_text g /\ contains g text = true).
Proof.
  split; [|split].
  - rewrite parse_date.
    destruct (first_match date_patterns text) as [m|] eqn:Hm; [|discriminate].
    intros H. injection H as H.
    apply first_match_Some_inv in Hm as (p & _ & Hm).
    destruct (group1 m) as [g|] eqn:Hg; [|discriminate]. injection H as <-.
    by eapply searched_group_in_text.
  - rewrite parse_amount.
    destruct (first_match amount_patterns text) as [m|] eqn:Hm; [|discriminate].
    intros H. injection H as <-.
    exact (numeric_field_from_text _ _ _ amount_pattern_shape Hm).
  - rewrite parse_fee.
    destruct (first_match fee_patterns text) as [m|] eqn:Hm; [|discriminate].
    intros H. injection H as <-.
    exact (numeric_field_from_text _ _ _ fee_pattern_shape Hm).
Qed.

Lemma pattern_fields_come_from_text_witness :
  exists g, "Rs. 15.00" = "Rs. " ++ g /\ numeric_text g /\
            contains g ("Fee: Rs. 15.00" ++ newline ++ "Total 500") = true.
Proof.
  apply (proj2 (proj2 (pattern_fields_come_from_text
                         ("Fee: Rs. 15.00" ++ newline ++ "Total 500") "Rs. 15.00"))).
  vm_compute. reflexivity.
Defined.
